(** * SonicOS audio analyzer: energy bands, onset/BPM detection, silent state

    Shallow embedding of [src/audio/AudioAnalyzer.ts] (with the records of
    [src/core/types.ts] it returns) and the properties its specification
    states about it.

    Numbers.  A JavaScript [number] is modelled by an exact rational [Q];
    the rounding of double arithmetic, NaN and the infinities are outside
    the model.  Equality of computed numbers is therefore [==] (Qeq); [=]
    is used where the code stores a value unchanged.  Bin indices are
    integers ([Z]), as [Math.round] produces them.  A [Float32Array] is a
    [list Q] of fixed length: reading outside it gives [undefined] (here
    [None]), writing outside it is ignored, which is what stdpp's list
    insert does, and a number written into it is rounded to the nearest
    float32 ([fround]). *)

From Stdlib Require Import ZArith QArith Qround Qminmax Qpower Lia Lqa.
From stdpp Require Import base list strings.

Open Scope Q_scope.

(** ** Constants for audio analysis *)

Definition FFT_SIZE : Q := 2048.
Definition SAMPLE_RATE : Q := 44100.
Definition MIN_BPM : Q := 60.
Definition MAX_BPM : Q := 200.

Definition LOW_FREQ_MIN : Q := 20.
Definition LOW_FREQ_MAX : Q := 250.
Definition MID_FREQ_MIN : Q := 250.
Definition MID_FREQ_MAX : Q := 4000.
Definition HIGH_FREQ_MIN : Q := 4000.
Definition HIGH_FREQ_MAX : Q := 20000.

Definition LOW_WEIGHT : Q := 0.5.
Definition MID_WEIGHT : Q := 0.3.
Definition HIGH_WEIGHT : Q := 0.2.

Definition ONSET_THRESHOLD : Q := 0.15.
Definition MIN_ONSET_INTERVAL_MS : Q := 300.
Definition MAX_ONSET_INTERVAL_MS : Q := 1000.
Definition ONSET_HISTORY_SIZE : nat := 16.

(** [FFT_SIZE / 2], the length of the two pre-allocated buffers. *)
Definition BIN_COUNT : nat := 1024.

(** ** JavaScript primitives *)

Module Math.

Definition min (a b : Q) : Q := Qmin a b.

Definition max (a b : Q) : Q := Qmax a b.

(** [Math.round] rounds to the nearest integer, halves upwards. *)
Definition round (x : Q) : Z := Qfloor (x + (1 # 2)).

End Math.

(** [a > b] and [a >= b], [a <= b] on numbers. *)
Definition gt (a b : Q) : bool := negb (Qle_bool a b).
Definition ge (a b : Q) : bool := Qle_bool b a.
Definition le (a b : Q) : bool := Qle_bool a b.

(** [new Float32Array(n)]: [n] zeros. *)
Definition Float32Array (n : nat) : list Q := replicate n 0.

(** *** Storing a number in a [Float32Array]

    The element keeps the nearest float32 of the number assigned to it
    (what [Math.fround] returns): 24 bits of precision, ties to the even
    neighbour, smallest exponent -126.  Numbers beyond the float32 range,
    which would become an infinity, are not stored by this program. *)

(** The binade of a positive number: the exponent [e] with
    [2 ^ e <= x < 2 ^ (e + 1)]. *)
Definition binade (x : Q) : Z :=
  if Qle_bool 1 x then Z.log2 (Qfloor x)
  else (- Z.log2_up (Qceiling (/ x)))%Z.

(** The nearest integer, a tie going to the even one. *)
Definition round_half_even (x : Q) : Z :=
  let n := Qfloor x in
  match Qcompare (x - inject_Z n) (1 # 2) with
  | Lt => n
  | Gt => (n + 1)%Z
  | Eq => if Z.even n then n else (n + 1)%Z
  end.

(** The exponent of the float32 binade of a positive number (subnormal
    numbers share the smallest one) and the spacing of float32 there. *)
Definition float32_exponent (x : Q) : Z := Z.max (binade x) (-126).

Definition float32_ulp (x : Q) : Q := 2 ^ (float32_exponent x - 23).

Definition fround_pos (x : Q) : Q :=
  let ulp := float32_ulp x in
  inject_Z (round_half_even (x / ulp)) * ulp.

Definition fround (x : Q) : Q :=
  let x := Qred x in
  match Qcompare x 0 with
  | Eq => 0
  | Gt => fround_pos x
  | Lt => - fround_pos (- x)
  end.

(** [a[i]] for an integer [i]: [None] is JavaScript's [undefined]. *)
Definition at_index (a : list Q) (i : Z) : option Q :=
  if (i <? 0)%Z then None else a !! Z.to_nat i.

(** [!x] for a reference [x] that is an object or [null]. *)
Definition is_null {A : Type} (x : option A) : bool :=
  match x with
  | Some _ => false
  | None => true
  end.

(** ** Records of [core/types.ts] *)

Record EnergyBands := {
  low : Q;
  mid : Q;
  high : Q;
  total : Q
}.

Record AudioAnalysis := {
  timestamp : Q;
  fft : list Q;
  energy : EnergyBands;
  bpm : Q;
  beat : bool
}.

(** ** Frequency bins and band energies *)

(** The FFT size and the sample rate are positive in every call; at zero
    JavaScript divides to an infinity, which [Q] does not have.  The two
    quotients are exact here; the code rounds each to a double, which can
    move a quotient that lies within that rounding of a half to the other
    side of it. *)
Definition frequencyToBin (frequency fftSize sampleRate : Q) : Z :=
  let binWidth := sampleRate / fftSize in
  Math.round (frequency / binWidth).

(** The accumulator of the summation loop of [calculateBandEnergy],
    together with the positions of [fftData] the loop has read.  [sum] is
    [None] once an [undefined] element has been added to it (the number is
    NaN from then on). *)
Record Scan := {
  sum : option Q;
  reads : list Z
}.

Definition add_element (s : option Q) (x : option Q) : option Q :=
  match s, x with
  | Some s, Some x => Some (s + x)
  | _, _ => None
  end.

(** [for (let i = startBin; i < endBin; i++) sum += fftData[i]], with
    [n] the number of iterations left, [endBin - i]. *)
Fixpoint band_loop (fftData : list Q) (i : Z) (n : nat) (st : Scan) : Scan :=
  match n with
  | O => st
  | S n' =>
      band_loop fftData (i + 1) n'
        {| sum := add_element (sum st) (at_index fftData i);
           reads := reads st ++ [i] |}
  end.

Definition calculateBandEnergy_scan
    (fftData : list Q) (startBin endBin : Z) : Scan :=
  if ((startBin >=? endBin) || (startBin <? 0)
      || (endBin >? Z.of_nat (length fftData)))%Z
  then {| sum := Some 0; reads := [] |}
  else
    let count := (endBin - startBin)%Z in
    let st := band_loop fftData startBin (Z.to_nat count)
                {| sum := Some 0; reads := [] |} in
    {| sum := if (count >? 0)%Z
              then (fun s => s / inject_Z count) <$> sum st
              else Some 0;
       reads := reads st |}.

(** The number [calculateBandEnergy] returns.  The scan never ends in NaN
    ([calculateBandEnergy_scan_value] below), so the [0] of [default] is
    never taken. *)
Definition calculateBandEnergy
    (fftData : list Q) (startBin endBin : Z) : Q :=
  default 0 (sum (calculateBandEnergy_scan fftData startBin endBin)).

Definition calculateEnergyBands
    (fftData : list Q) (fftSize sampleRate : Q) : EnergyBands :=
  let lowStart := frequencyToBin LOW_FREQ_MIN fftSize sampleRate in
  let lowEnd := frequencyToBin LOW_FREQ_MAX fftSize sampleRate in
  let midStart := frequencyToBin MID_FREQ_MIN fftSize sampleRate in
  let midEnd := frequencyToBin MID_FREQ_MAX fftSize sampleRate in
  let highStart := frequencyToBin HIGH_FREQ_MIN fftSize sampleRate in
  let highEnd := Z.min (frequencyToBin HIGH_FREQ_MAX fftSize sampleRate)
                       (Z.of_nat (length fftData)) in
  let low := calculateBandEnergy fftData lowStart lowEnd in
  let mid := calculateBandEnergy fftData midStart midEnd in
  let high := calculateBandEnergy fftData highStart highEnd in
  let total :=
    Math.min 1 (Math.max 0 (low * LOW_WEIGHT + mid * MID_WEIGHT
                            + high * HIGH_WEIGHT)) in
  {| low := low; mid := mid; high := high; total := total |}.

Definition constrainBpm (bpm : Q) : Q :=
  Math.min MAX_BPM (Math.max MIN_BPM bpm).

(** ** BPM detector using onset detection *)

Record BpmDetector := {
  onsetTimes : list Q;
  lastEnergy : Q;
  lastOnsetTime : Q;
  currentBpm : Q
}.

Definition new_BpmDetector : BpmDetector :=
  {| onsetTimes := []; lastEnergy := 0; lastOnsetTime := 0;
     currentBpm := 120 |}.

(** The loop of [updateBpm]: [rest] is [onsetTimes] from position [i] on
    and [prev] is [onsetTimes[i - 1]]. *)
Fixpoint collect_intervals (prev : Q) (rest intervals : list Q) : list Q :=
  match rest with
  | [] => intervals
  | t :: rest' =>
      let interval := t - prev in
      collect_intervals t rest'
        (if ge interval MIN_ONSET_INTERVAL_MS
            && le interval MAX_ONSET_INTERVAL_MS
         then intervals ++ [interval]
         else intervals)
  end.

Definition updateBpm (d : BpmDetector) : BpmDetector :=
  let intervals :=
    match onsetTimes d with
    | [] => []
    | t0 :: rest => collect_intervals t0 rest []
    end in
  if (0 <? length intervals)%nat then
    let avgInterval :=
      foldl Qplus 0 intervals / inject_Z (Z.of_nat (length intervals)) in
    let bpm := 60000 / avgInterval in
    {| onsetTimes := onsetTimes d; lastEnergy := lastEnergy d;
       lastOnsetTime := lastOnsetTime d; currentBpm := constrainBpm bpm |}
  else d.

(** [processEnergy] returns the beat flag; the detector after the call is
    the second component. *)
Definition processEnergy (d : BpmDetector) (energy timestamp : Q)
    : bool * BpmDetector :=
  let energyDelta := energy - lastEnergy d in
  let isOnset :=
    gt energyDelta ONSET_THRESHOLD
    && gt (timestamp - lastOnsetTime d) MIN_ONSET_INTERVAL_MS in
  if isOnset then
    let pushed := onsetTimes d ++ [timestamp] in
    let kept :=
      if (ONSET_HISTORY_SIZE <? length pushed)%nat then drop 1 pushed
      else pushed in
    let d1 := {| onsetTimes := kept; lastEnergy := energy;
                 lastOnsetTime := timestamp; currentBpm := currentBpm d |} in
    (true, if (2 <=? length kept)%nat then updateBpm d1 else d1)
  else
    (false, {| onsetTimes := onsetTimes d; lastEnergy := energy;
               lastOnsetTime := lastOnsetTime d;
               currentBpm := currentBpm d |}).

Definition getBpm (d : BpmDetector) : Q := currentBpm d.

Definition reset (d : BpmDetector) : BpmDetector :=
  {| onsetTimes := []; lastEnergy := 0; lastOnsetTime := 0;
     currentBpm := 120 |}.

(** A call made on a detector, and a sequence of calls run from a given
    detector, oldest call first. *)
Inductive DetectorCall :=
  | ProcessEnergy (energy timestamp : Q)
  | Reset.

Definition detector_step (d : BpmDetector) (c : DetectorCall) : BpmDetector :=
  match c with
  | ProcessEnergy energy timestamp => (processEnergy d energy timestamp).2
  | Reset => reset d
  end.

Definition detector_run (calls : list DetectorCall) (d : BpmDetector)
    : BpmDetector :=
  foldl detector_step d calls.

(** ** The analyzer

    Of the fields of the class, the source node, the callback set and the
    animation frame id play no part in what [getAnalysis] returns and are
    left out.  The audio context is represented by its sample rate and the
    analyser node by the settings [connect] gives it; the frequency data
    the node would deliver and the clock are arguments of [getAnalysis]. *)

Record AudioContext := {
  sampleRate : Q
}.

Record AnalyserNode := {
  fftSize : Q;
  smoothingTimeConstant : Q
}.

Record AudioAnalyzer := {
  audioContext : option AudioContext;
  analyserNode : option AnalyserNode;
  fftData : list Q;
  normalizedFft : list Q;
  bpmDetector : BpmDetector;
  isConnected : bool
}.

Definition new_AudioAnalyzer : AudioAnalyzer :=
  {| audioContext := None; analyserNode := None;
     fftData := Float32Array BIN_COUNT;
     normalizedFft := Float32Array BIN_COUNT;
     bpmDetector := new_BpmDetector;
     isConnected := false |}.

(** [connect]: [rate] is the sample rate of the context [new AudioContext()]
    creates when the analyzer has none yet. *)
Definition connect (rate : Q) (a : AudioAnalyzer) : AudioAnalyzer :=
  {| audioContext :=
       match audioContext a with
       | Some ctx => Some ctx
       | None => Some {| sampleRate := rate |}
       end;
     analyserNode :=
       Some {| fftSize := FFT_SIZE; smoothingTimeConstant := 0.8 |};
     fftData := fftData a;
     normalizedFft := normalizedFft a;
     bpmDetector := bpmDetector a;
     isConnected := true |}.

Definition disconnect (a : AudioAnalyzer) : AudioAnalyzer :=
  {| audioContext := audioContext a;
     analyserNode := None;
     fftData := fftData a;
     normalizedFft := normalizedFft a;
     bpmDetector := reset (bpmDetector a);
     isConnected := false |}.

Definition dispose (a : AudioAnalyzer) : AudioAnalyzer :=
  let a := disconnect a in
  {| audioContext := None;
     analyserNode := analyserNode a;
     fftData := fftData a;
     normalizedFft := normalizedFft a;
     bpmDetector := bpmDetector a;
     isConnected := isConnected a |}.

(** [getFloatFrequencyData(array)]: the node's frequency data [freq] (in
    dB, float32 values as the node holds them) is copied into [array];
    elements that do not fit are dropped and elements of [array] beyond
    the data are left as they are. *)
Definition getFloatFrequencyData (freq array : list Q) : list Q :=
  take (length array) freq ++ drop (length freq) array.

(** One bin: clamp to [minDb, maxDb], then normalize. *)
Definition normalize_db (db : Q) : Q :=
  let minDb := -100 in
  let maxDb := 0 in
  let range := maxDb - minDb in
  (Math.max minDb (Math.min maxDb db) - minDb) / range.

(** The loop of [normalizeFftData]: [rest] is [fftData] from position [i]
    on, [out] is [normalizedFft], a [Float32Array]: the assignment
    [this.normalizedFft[i] = normalized] stores the float32 of the
    number. *)
Fixpoint normalize_loop (i : nat) (rest out : list Q) : list Q :=
  match rest with
  | [] => out
  | db :: rest' =>
      normalize_loop (S i) rest' (<[i := fround (normalize_db db)]> out)
  end.

Definition normalizeFftData (a : AudioAnalyzer) : AudioAnalyzer :=
  {| audioContext := audioContext a;
     analyserNode := analyserNode a;
     fftData := fftData a;
     normalizedFft := normalize_loop 0 (fftData a) (normalizedFft a);
     bpmDetector := bpmDetector a;
     isConnected := isConnected a |}.

Definition createSilentAnalysis (timestamp : Q) : AudioAnalysis :=
  {| timestamp := timestamp;
     fft := Float32Array BIN_COUNT;
     energy := {| low := 0; mid := 0; high := 0; total := 0 |};
     bpm := 120;
     beat := false |}.

(** [this.audioContext?.sampleRate ?? SAMPLE_RATE] *)
Definition analysis_rate (a : AudioAnalyzer) : Q :=
  match audioContext a with
  | Some ctx => sampleRate ctx
  | None => SAMPLE_RATE
  end.

(** [getAnalysis]: [now] is the value of [performance.now()] and [freq] the
    frequency data of the analyser node at the time of the call. *)
Definition getAnalysis (now : Q) (freq : list Q) (a : AudioAnalyzer)
    : AudioAnalysis * AudioAnalyzer :=
  let timestamp := now in
  if negb (isConnected a) || is_null (analyserNode a)
  then (createSilentAnalysis timestamp, a)
  else
    let a1 :=
      {| audioContext := audioContext a;
         analyserNode := analyserNode a;
         fftData := getFloatFrequencyData freq (fftData a);
         normalizedFft := normalizedFft a;
         bpmDetector := bpmDetector a;
         isConnected := isConnected a |} in
    let a2 := normalizeFftData a1 in
    let energy :=
      calculateEnergyBands (normalizedFft a2) FFT_SIZE (analysis_rate a2) in
    let '(beat, detector) :=
      processEnergy (bpmDetector a2) (total energy) timestamp in
    let bpm := getBpm detector in
    ({| timestamp := timestamp;
        fft := normalizedFft a2;
        energy := energy;
        bpm := bpm;
        beat := beat |},
     {| audioContext := audioContext a2;
        analyserNode := analyserNode a2;
        fftData := fftData a2;
        normalizedFft := normalizedFft a2;
        bpmDetector := detector;
        isConnected := isConnected a2 |}).

(** A call made on an analyzer and a sequence of calls, oldest first. *)
Inductive AnalyzerCall :=
  | Connect (rate : Q)
  | Disconnect
  | GetAnalysis (now : Q) (freq : list Q)
  | Dispose.

Definition analyzer_step (a : AudioAnalyzer) (c : AnalyzerCall)
    : AudioAnalyzer :=
  match c with
  | Connect rate => connect rate a
  | Disconnect => disconnect a
  | GetAnalysis now freq => (getAnalysis now freq a).2
  | Dispose => dispose a
  end.

Definition analyzer_run (calls : list AnalyzerCall) (a : AudioAnalyzer)
    : AudioAnalyzer :=
  foldl analyzer_step a calls.

(** ** Vocabulary of the specification

    These definitions follow the words of the specification, not the code;
    the theorems below compare the code with them. *)

Definition Qsum (l : list Q) : Q := foldr Qplus 0 l.

(** Arithmetic mean of a list of numbers. *)
Definition mean (l : list Q) : Q := Qsum l / inject_Z (Z.of_nat (length l)).

(** A value in [0,1]. *)
Definition unit_interval (x : Q) : Prop := 0 <= x <= 1.

(** [x] clamped to [lo, hi]. *)
Definition clamp (lo hi x : Q) : Q :=
  if Qlt_le_dec x lo then lo else if Qlt_le_dec hi x then hi else x.

(** The affine map that takes [lo, hi] onto [0,1]. *)
Definition affine (lo hi x : Q) : Q := (x - lo) / (hi - lo).

(** The bins of the range [startBin, endBin) of a spectrum. *)
Definition bins_in_range (fftData : list Q) (startBin endBin : Z) : list Q :=
  take (Z.to_nat (endBin - startBin)) (drop (Z.to_nat startBin) fftData).

(** The ranges [calculateBandEnergy] rejects: empty, starting below the
    array or ending beyond it. *)
Definition range_rejected (fftData : list Q) (startBin endBin : Z) : Prop :=
  (startBin >= endBin \/ startBin < 0
   \/ endBin > Z.of_nat (length fftData))%Z.

(** The intervals between consecutive onsets of a history. *)
Fixpoint inter_onset_intervals (times : list Q) : list Q :=
  match times with
  | t0 :: (t1 :: _) as rest => (t1 - t0) :: inter_onset_intervals rest
  | _ => []
  end.

(** An interval within the bounds that correspond to 200 and 60 BPM. *)
Definition valid_interval (interval : Q) : bool :=
  Qle_bool (60000 / MAX_BPM) interval && Qle_bool interval (60000 / MIN_BPM).

Definition valid_intervals (times : list Q) : list Q :=
  List.filter valid_interval (inter_onset_intervals times).

(** Appending an onset to a history of bounded capacity: the oldest entry
    goes when the capacity is exceeded. *)
Definition append_onset (capacity : nat) (times : list Q) (t : Q) : list Q :=
  let times' := times ++ [t] in
  if (capacity <? length times')%nat then tail times' else times'.

(** The onset condition as the specification words it: the energy rose by
    more than the threshold and at least the minimum interval has elapsed
    since the last onset. *)
Definition onset_at_least (d : BpmDetector) (energy timestamp : Q) : Prop :=
  ONSET_THRESHOLD < energy - lastEnergy d
  /\ MIN_ONSET_INTERVAL_MS <= timestamp - lastOnsetTime d.

(** The onset condition of the code: more than the minimum interval. *)
Definition onset_after (d : BpmDetector) (energy timestamp : Q) : Prop :=
  ONSET_THRESHOLD < energy - lastEnergy d
  /\ MIN_ONSET_INTERVAL_MS < timestamp - lastOnsetTime d.

(** The energy of the previous tick of a call history: that of the last
    call when it was a [processEnergy], 0 at the start and after a reset. *)
Definition previous_energy (calls : list DetectorCall) : Q :=
  match last calls with
  | Some (ProcessEnergy energy _) => energy
  | _ => 0
  end.

(** The time of the last onset in the history of a detector, 0 when the
    history is empty. *)
Definition last_onset_time (d : BpmDetector) : Q :=
  default 0 (last (onsetTimes d)).

(** What holds of every detector reached by calls from a new one. *)
Record detector_inv (d : BpmDetector) : Prop := {
  inv_bpm : MIN_BPM <= currentBpm d <= MAX_BPM;
  inv_history : (length (onsetTimes d) <= ONSET_HISTORY_SIZE)%nat;
  inv_last_onset : lastOnsetTime d = last_onset_time d
}.

(** The buffers of an analyzer have the configured bin count. *)
Definition buffers_ok (a : AudioAnalyzer) : Prop :=
  length (fftData a) = BIN_COUNT /\ length (normalizedFft a) = BIN_COUNT.

(** What holds of every analyzer reached by calls from a new one. *)
Definition analyzer_inv (a : AudioAnalyzer) : Prop :=
  buffers_ok a /\ detector_inv (bpmDetector a).

(** ** The bin ranges of the three bands

    The six bounds [calculateEnergyBands] computes before it averages,
    for an array of [len] bins. *)

Record BandRanges := {
  lowStart : Z;
  lowEnd : Z;
  midStart : Z;
  midEnd : Z;
  highStart : Z;
  highEnd : Z
}.

Definition band_ranges (len : nat) (fftSize sampleRate : Q) : BandRanges :=
  {| lowStart := frequencyToBin LOW_FREQ_MIN fftSize sampleRate;
     lowEnd := frequencyToBin LOW_FREQ_MAX fftSize sampleRate;
     midStart := frequencyToBin MID_FREQ_MIN fftSize sampleRate;
     midEnd := frequencyToBin MID_FREQ_MAX fftSize sampleRate;
     highStart := frequencyToBin HIGH_FREQ_MIN fftSize sampleRate;
     highEnd := Z.min (frequencyToBin HIGH_FREQ_MAX fftSize sampleRate)
                      (Z.of_nat len) |}.

(** ** Errors ([core/errors.ts])

    A TypeScript string enum: the value of a code is the string of its
    name. *)

Inductive SonicOSErrorCode :=
  | AUDIO_CONNECT_FAILED
  | AUDIO_STREAM_LOST
  | WEBGL_INIT_FAILED
  | WEBGL_CONTEXT_LOST
  | SHADER_COMPILE_ERROR
  | ENV_PARSE_ERROR
  | ENV_VALIDATION_ERROR
  | ENV_NOT_FOUND.

Definition code_value (c : SonicOSErrorCode) : string :=
  match c with
  | AUDIO_CONNECT_FAILED => "AUDIO_CONNECT_FAILED"
  | AUDIO_STREAM_LOST => "AUDIO_STREAM_LOST"
  | WEBGL_INIT_FAILED => "WEBGL_INIT_FAILED"
  | WEBGL_CONTEXT_LOST => "WEBGL_CONTEXT_LOST"
  | SHADER_COMPILE_ERROR => "SHADER_COMPILE_ERROR"
  | ENV_PARSE_ERROR => "ENV_PARSE_ERROR"
  | ENV_VALIDATION_ERROR => "ENV_VALIDATION_ERROR"
  | ENV_NOT_FOUND => "ENV_NOT_FOUND"
  end.

Module ErrorMetadata.

Record t := {
  recoverable : bool;
  category : string
}.

End ErrorMetadata.

Definition ERROR_METADATA (c : SonicOSErrorCode) : ErrorMetadata.t :=
  match c with
  | AUDIO_CONNECT_FAILED =>
      {| ErrorMetadata.recoverable := true;
         ErrorMetadata.category := "Audio" |}
  | AUDIO_STREAM_LOST =>
      {| ErrorMetadata.recoverable := true;
         ErrorMetadata.category := "Audio" |}
  | WEBGL_INIT_FAILED =>
      {| ErrorMetadata.recoverable := false;
         ErrorMetadata.category := "Visual" |}
  | WEBGL_CONTEXT_LOST =>
      {| ErrorMetadata.recoverable := true;
         ErrorMetadata.category := "Visual" |}
  | SHADER_COMPILE_ERROR =>
      {| ErrorMetadata.recoverable := false;
         ErrorMetadata.category := "Visual" |}
  | ENV_PARSE_ERROR =>
      {| ErrorMetadata.recoverable := true;
         ErrorMetadata.category := "Config" |}
  | ENV_VALIDATION_ERROR =>
      {| ErrorMetadata.recoverable := true;
         ErrorMetadata.category := "Config" |}
  | ENV_NOT_FOUND =>
      {| ErrorMetadata.recoverable := true;
         ErrorMetadata.category := "Config" |}
  end.

Record SonicOSError := {
  code : string;
  message : string;
  recoverable : bool
}.

Definition createSonicOSError (c : SonicOSErrorCode) (msg : string)
    : SonicOSError :=
  let metadata := ERROR_METADATA c in
  {| code := code_value c;
     message := msg;
     recoverable := ErrorMetadata.recoverable metadata |}.

(** ** Runs of the detector *)

(** The beat flags a sequence of calls returns, one for each
    [processEnergy], oldest first. *)
Fixpoint detector_beats (calls : list DetectorCall) (d : BpmDetector)
    : list bool :=
  match calls with
  | [] => []
  | ProcessEnergy energy timestamp :: calls' =>
      let r := processEnergy d energy timestamp in
      r.1 :: detector_beats calls' r.2
  | Reset :: calls' => detector_beats calls' (reset d)
  end.

(** No energy of the sequence exceeds the one before it by more than the
    onset threshold; [previous] is the energy before the first call, and a
    reset sets it to 0. *)
Fixpoint no_rise (previous : Q) (calls : list DetectorCall) : Prop :=
  match calls with
  | [] => True
  | ProcessEnergy energy _ :: calls' =>
      energy - previous <= ONSET_THRESHOLD /\ no_rise energy calls'
  | Reset :: calls' => no_rise 0 calls'
  end.

(** What the history and the BPM of a detector reached from a new one
    satisfy besides [detector_inv]. *)
Record history_inv (d : BpmDetector) : Prop := {
  inv_spaced :
    Forall (fun interval => MIN_ONSET_INTERVAL_MS < interval)
           (inter_onset_intervals (onsetTimes d));
  inv_tempo :
    valid_intervals (onsetTimes d) <> [] ->
    currentBpm d == 60000 / mean (valid_intervals (onsetTimes d));
  inv_below_max : currentBpm d < MAX_BPM
}.

(** What further holds of every analyzer reached from a new one: the last
    energy its detector has seen is not negative, and when it is connected
    it has an analyser node. *)
Record live_inv (a : AudioAnalyzer) : Prop := {
  inv_energy : 0 <= lastEnergy (bpmDetector a);
  inv_node : isConnected a = true -> is_Some (analyserNode a)
}.

(** ** Numbers: comparisons, minimum and maximum *)

Lemma gt_true (a b : Q) : gt a b = true <-> b < a.
Proof.
  unfold gt. rewrite negb_true_iff, <- not_true_iff_false, Qle_bool_iff.
  split; [apply Qnot_le_lt | apply Qlt_not_le].
Qed.

Lemma ge_true (a b : Q) : ge a b = true <-> b <= a.
Proof. unfold ge. apply Qle_bool_iff. Qed.

Lemma le_true (a b : Q) : le a b = true <-> a <= b.
Proof. unfold le. apply Qle_bool_iff. Qed.

Lemma Math_max_spec (a b : Q) :
  (a < b /\ Math.max a b == b) \/ (b <= a /\ Math.max a b == a).
Proof. apply Q.max_spec. Qed.

Lemma Math_min_spec (a b : Q) :
  (a < b /\ Math.min a b == a) \/ (b <= a /\ Math.min a b == b).
Proof. apply Q.min_spec. Qed.

(** [Math.min hi (Math.max lo x)] is [x] clamped to [lo, hi]. *)
Lemma min_max_clamp (lo hi x : Q) :
  lo <= hi -> Math.min hi (Math.max lo x) == clamp lo hi x.
Proof.
  intros Hle. unfold clamp.
  destruct (Math_max_spec lo x) as [[H1 E1] | [H1 E1]];
    destruct (Math_min_spec hi (Math.max lo x)) as [[H2 E2] | [H2 E2]];
    rewrite E2; rewrite ?E1 in *;
    destruct (Qlt_le_dec x lo); destruct (Qlt_le_dec hi x); lra.
Qed.

(** [Math.max lo (Math.min hi x)], the other order, clamps as well. *)
Lemma max_min_clamp (lo hi x : Q) :
  lo <= hi -> Math.max lo (Math.min hi x) == clamp lo hi x.
Proof.
  intros Hle. unfold clamp.
  destruct (Math_min_spec hi x) as [[H1 E1] | [H1 E1]];
    destruct (Math_max_spec lo (Math.min hi x)) as [[H2 E2] | [H2 E2]];
    rewrite E2; rewrite ?E1 in *;
    destruct (Qlt_le_dec x lo); destruct (Qlt_le_dec hi x); lra.
Qed.

Lemma clamp_range (lo hi x : Q) : lo <= hi -> lo <= clamp lo hi x <= hi.
Proof.
  intros Hle. unfold clamp.
  destruct (Qlt_le_dec x lo); [lra |]. destruct (Qlt_le_dec hi x); lra.
Qed.

Lemma clamp_id (lo hi x : Q) : lo <= x <= hi -> clamp lo hi x == x.
Proof.
  intros [H1 H2]. unfold clamp.
  destruct (Qlt_le_dec x lo); [lra |]. destruct (Qlt_le_dec hi x); lra.
Qed.

(** ** Array reads and the summation loop *)

Lemma at_index_Some (a : list Q) (i : Z) :
  is_Some (at_index a i) <-> (0 <= i < Z.of_nat (length a))%Z.
Proof.
  unfold at_index. destruct (Z.ltb_spec i 0) as [Hneg | Hpos].
  - split; [intros [x Hx]; discriminate | lia].
  - rewrite lookup_lt_is_Some. lia.
Qed.

Lemma band_loop_reads (fftData : list Q) (n : nat) :
  forall (i : Z) (st : Scan),
    reads (band_loop fftData i n st) = reads st ++ seqZ i (Z.of_nat n).
Proof.
  induction n as [| n IH]; intros i st; simpl band_loop.
  - change (Z.of_nat 0) with 0%Z. rewrite seqZ_nil by lia.
    symmetry. apply app_nil_r.
  - rewrite IH. simpl reads. rewrite <- app_assoc. f_equal.
    rewrite (seqZ_cons i (Z.of_nat (S n))) by lia.
    simpl. do 2 f_equal; lia.
Qed.

Lemma band_loop_sum (fftData : list Q) (n : nat) :
  forall (i : Z) (st : Scan),
    (0 <= i)%Z -> (Z.to_nat i + n <= length fftData)%nat ->
    sum (band_loop fftData i n st)
    = (fun s => foldl Qplus s (take n (drop (Z.to_nat i) fftData)))
        <$> sum st.
Proof.
  induction n as [| n IH]; intros i st Hi Hlen; simpl band_loop.
  - destruct (sum st); reflexivity.
  - rewrite IH by lia. simpl sum.
    destruct (lookup_lt_is_Some_2 fftData (Z.to_nat i)) as [x Hx]; [lia |].
    unfold at_index. destruct (Z.ltb_spec i 0) as [Hneg | _]; [lia |].
    rewrite Hx.
    rewrite (drop_S fftData x (Z.to_nat i) Hx).
    replace (Z.to_nat (i + 1)) with (S (Z.to_nat i)) by lia.
    destruct (sum st); reflexivity.
Qed.

Lemma foldl_Qplus (l : list Q) : forall s : Q, foldl Qplus s l == s + Qsum l.
Proof.
  induction l as [| x l IH]; intros s; simpl.
  - lra.
  - rewrite IH. unfold Qsum. simpl. lra.
Qed.

Lemma bins_in_range_length (fftData : list Q) (startBin endBin : Z) :
  (0 <= startBin <= endBin)%Z -> (endBin <= Z.of_nat (length fftData))%Z ->
  length (bins_in_range fftData startBin endBin)
  = Z.to_nat (endBin - startBin).
Proof.
  intros H1 H2. unfold bins_in_range. rewrite length_take, length_drop. lia.
Qed.

Lemma bins_in_range_Forall (P : Q -> Prop) (fftData : list Q) (s e : Z) :
  Forall P fftData -> Forall P (bins_in_range fftData s e).
Proof.
  intros H. unfold bins_in_range. apply Forall_take, Forall_drop, H.
Qed.

Lemma guard_true (fftData : list Q) (startBin endBin : Z) :
  ((startBin >=? endBin) || (startBin <? 0)
   || (endBin >? Z.of_nat (length fftData)))%Z = true
  <-> range_rejected fftData startBin endBin.
Proof.
  unfold range_rejected.
  rewrite !orb_true_iff, Z.geb_le, Z.ltb_lt, Z.gtb_lt. lia.
Qed.

Lemma scan_rejected (fftData : list Q) (startBin endBin : Z) :
  range_rejected fftData startBin endBin ->
  calculateBandEnergy_scan fftData startBin endBin
  = {| sum := Some 0; reads := [] |}.
Proof.
  intros H. unfold calculateBandEnergy_scan.
  apply guard_true in H. rewrite H. reflexivity.
Qed.

Lemma scan_accepted (fftData : list Q) (startBin endBin : Z) :
  ~ range_rejected fftData startBin endBin ->
  calculateBandEnergy_scan fftData startBin endBin
  = {| sum := Some (foldl Qplus 0 (bins_in_range fftData startBin endBin)
                    / inject_Z (endBin - startBin));
       reads := seqZ startBin (endBin - startBin) |}.
Proof.
  intros H. unfold calculateBandEnergy_scan.
  destruct ((startBin >=? endBin) || (startBin <? 0)
            || (endBin >? Z.of_nat (length fftData)))%Z eqn:G.
  - apply guard_true in G. contradiction.
  - unfold range_rejected in H.
    rewrite band_loop_reads, band_loop_sum by lia.
    destruct (Z.gtb_spec (endBin - startBin) 0) as [_ | Hle]; [| lia].
    simpl. unfold bins_in_range. f_equal. f_equal. lia.
Qed.

(** The scan never ends in NaN: its sum is the number
    [calculateBandEnergy] stands for. *)
Lemma calculateBandEnergy_scan_value (fftData : list Q) (startBin endBin : Z) :
  sum (calculateBandEnergy_scan fftData startBin endBin)
  = Some (calculateBandEnergy fftData startBin endBin).
Proof.
  unfold calculateBandEnergy.
  destruct (guard_true fftData startBin endBin) as [_ G].
  destruct (decide (range_rejected fftData startBin endBin)) as [R | R].
  - rewrite scan_rejected by exact R. reflexivity.
  - rewrite scan_accepted by exact R. reflexivity.
Qed.

(** ** Means of bounded numbers *)

Lemma Qsum_bounds (lo hi : Q) (l : list Q) :
  Forall (fun x => lo <= x <= hi) l ->
  lo * inject_Z (Z.of_nat (length l)) <= Qsum l
  /\ Qsum l <= hi * inject_Z (Z.of_nat (length l)).
Proof.
  induction 1 as [| x l [Hx0 Hx1] _ [IH0 IH1]].
  - unfold Qsum; simpl. change (inject_Z (Z.of_nat 0)) with 0. lra.
  - change (Qsum (x :: l)) with (x + Qsum l).
    rewrite length_cons, Nat2Z.inj_succ, <- Z.add_1_r, inject_Z_plus.
    change (inject_Z 1) with 1. lra.
Qed.

Lemma length_pos_Q {A : Type} (l : list A) :
  l <> [] -> 0 < inject_Z (Z.of_nat (length l)).
Proof.
  intros Hne. change 0 with (inject_Z 0). rewrite <- Zlt_Qlt.
  destruct l; [contradiction | simpl; lia].
Qed.

Lemma mean_bounds (lo hi : Q) (l : list Q) :
  l <> [] -> Forall (fun x => lo <= x <= hi) l -> lo <= mean l <= hi.
Proof.
  intros Hne Hall. destruct (Qsum_bounds lo hi l Hall) as [H0 H1].
  pose proof (length_pos_Q l Hne) as Hpos.
  unfold mean. split.
  - apply Qle_shift_div_l; [exact Hpos | lra].
  - apply Qle_shift_div_r; [exact Hpos | lra].
Qed.

(** ** Band energies *)

Lemma band_energy_rejected (fftData : list Q) (startBin endBin : Z) :
  range_rejected fftData startBin endBin ->
  calculateBandEnergy fftData startBin endBin = 0.
Proof.
  intros R. unfold calculateBandEnergy. rewrite scan_rejected by exact R.
  reflexivity.
Qed.

Lemma band_energy_mean (fftData : list Q) (startBin endBin : Z) :
  ~ range_rejected fftData startBin endBin ->
  calculateBandEnergy fftData startBin endBin
  == mean (bins_in_range fftData startBin endBin).
Proof.
  intros R. unfold calculateBandEnergy. rewrite scan_accepted by exact R.
  simpl. unfold mean, range_rejected in *.
  rewrite bins_in_range_length by lia.
  rewrite Z2Nat.id by lia. rewrite foldl_Qplus. 
  apply Qdiv_comp; [lra | reflexivity].
Qed.

Lemma band_energy_unit (fftData : list Q) (startBin endBin : Z) :
  Forall unit_interval fftData ->
  unit_interval (calculateBandEnergy fftData startBin endBin).
Proof.
  intros Hall.
  destruct (decide (range_rejected fftData startBin endBin)) as [R | R].
  - rewrite band_energy_rejected by exact R. unfold unit_interval. lra.
  - unfold unit_interval. rewrite band_energy_mean by exact R.
    apply (mean_bounds 0 1).
    + intros Hnil. apply (f_equal length) in Hnil.
      unfold range_rejected in R.
      rewrite bins_in_range_length in Hnil by lia. simpl in Hnil. lia.
    + apply bins_in_range_Forall, Hall.
Qed.

Lemma bins_in_range_nil (fftData : list Q) (startBin endBin : Z) :
  bins_in_range fftData startBin endBin = [] ->
  range_rejected fftData startBin endBin.
Proof.
  intros Hnil. apply (f_equal length) in Hnil.
  unfold bins_in_range in Hnil.
  rewrite length_take, length_drop in Hnil. simpl in Hnil.
  unfold range_rejected. lia.
Qed.

Lemma clamp_compat (lo hi x y : Q) : x == y -> clamp lo hi x == clamp lo hi y.
Proof.
  intros E. unfold clamp.
  destruct (Qlt_le_dec x lo), (Qlt_le_dec y lo); try lra;
    destruct (Qlt_le_dec hi x), (Qlt_le_dec hi y); lra.
Qed.

Lemma energy_total_clamp (fftData : list Q) (fftSize sampleRate : Q) :
  let e := calculateEnergyBands fftData fftSize sampleRate in
  total e == clamp 0 1 (0.5 * low e + 0.3 * mid e + 0.2 * high e).
Proof.
  intros e. unfold e, calculateEnergyBands. cbn [total low mid high].
  rewrite min_max_clamp by lra. apply clamp_compat.
  unfold LOW_WEIGHT, MID_WEIGHT, HIGH_WEIGHT. ring.
Qed.

Lemma energy_bands_unit (fftData : list Q) (fftSize sampleRate : Q) :
  Forall unit_interval fftData ->
  let e := calculateEnergyBands fftData fftSize sampleRate in
  unit_interval (low e) /\ unit_interval (mid e) /\ unit_interval (high e)
  /\ unit_interval (total e).
Proof.
  intros Hall e. repeat split; try (apply band_energy_unit, Hall);
    unfold e; rewrite energy_total_clamp; apply clamp_range; lra.
Qed.

(** The bands of the analyzer's own configuration: with 1024 bins, FFT size
    2048 and the standard sample rate, low is the mean of bins 1 to 11, mid
    of bins 12 to 185 and high of bins 186 to 928. *)
Lemma standard_bands (fftData : list Q) :
  length fftData = BIN_COUNT ->
  let e := calculateEnergyBands fftData FFT_SIZE SAMPLE_RATE in
  low e == mean (bins_in_range fftData 1 12)
  /\ mid e == mean (bins_in_range fftData 12 186)
  /\ high e == mean (bins_in_range fftData 186 929).
Proof.
  intros Hlen e. unfold e, calculateEnergyBands. cbn [low mid high].
  rewrite Hlen.
  change (frequencyToBin LOW_FREQ_MIN FFT_SIZE SAMPLE_RATE) with 1%Z.
  change (frequencyToBin LOW_FREQ_MAX FFT_SIZE SAMPLE_RATE) with 12%Z.
  change (frequencyToBin MID_FREQ_MIN FFT_SIZE SAMPLE_RATE) with 12%Z.
  change (frequencyToBin MID_FREQ_MAX FFT_SIZE SAMPLE_RATE) with 186%Z.
  change (frequencyToBin HIGH_FREQ_MIN FFT_SIZE SAMPLE_RATE) with 186%Z.
  change (frequencyToBin HIGH_FREQ_MAX FFT_SIZE SAMPLE_RATE) with 929%Z.
  change (Z.min 929 (Z.of_nat BIN_COUNT)) with 929%Z.
  repeat split; apply band_energy_mean; unfold range_rejected;
    rewrite Hlen; unfold BIN_COUNT; lia.
Qed.

(** ** The BPM detector *)

Lemma constrainBpm_clamp (bpm : Q) :
  constrainBpm bpm == clamp MIN_BPM MAX_BPM bpm.
Proof.
  unfold constrainBpm. apply min_max_clamp.
  unfold MIN_BPM, MAX_BPM. lra.
Qed.

Lemma constrainBpm_range (bpm : Q) :
  MIN_BPM <= constrainBpm bpm <= MAX_BPM.
Proof.
  rewrite constrainBpm_clamp. apply clamp_range.
  unfold MIN_BPM, MAX_BPM. lra.
Qed.

Lemma constrainBpm_id (bpm : Q) :
  MIN_BPM <= bpm <= MAX_BPM -> constrainBpm bpm == bpm.
Proof. intros H. rewrite constrainBpm_clamp. apply clamp_id, H. Qed.

(** The test of the loop of [updateBpm] is the validity of the
    specification: 300 ms and 1000 ms are the intervals of 200 and 60 BPM. *)
Lemma interval_test_valid (interval : Q) :
  ge interval MIN_ONSET_INTERVAL_MS && le interval MAX_ONSET_INTERVAL_MS
  = valid_interval interval.
Proof.
  apply eq_true_iff_eq. unfold valid_interval.
  rewrite !andb_true_iff, ge_true, le_true, !Qle_bool_iff.
  unfold MIN_ONSET_INTERVAL_MS, MAX_ONSET_INTERVAL_MS, MIN_BPM, MAX_BPM.
  assert (E1 : 60000 / 200 == 300) by reflexivity.
  assert (E2 : 60000 / 60 == 1000) by reflexivity.
  rewrite E1, E2. reflexivity.
Qed.

Lemma valid_interval_bounds (interval : Q) :
  valid_interval interval = true ->
  MIN_ONSET_INTERVAL_MS <= interval <= MAX_ONSET_INTERVAL_MS.
Proof.
  rewrite <- interval_test_valid, andb_true_iff, ge_true, le_true. tauto.
Qed.

Lemma collect_intervals_spec (rest : list Q) :
  forall (prev : Q) (intervals : list Q),
    collect_intervals prev rest intervals
    = intervals
      ++ List.filter valid_interval (inter_onset_intervals (prev :: rest)).
Proof.
  induction rest as [| t rest IH]; intros prev intervals.
  - simpl. symmetry. apply app_nil_r.
  - cbn [collect_intervals]. rewrite IH, interval_test_valid.
    cbn [inter_onset_intervals List.filter].
    destruct (valid_interval (t - prev)).
    + rewrite <- app_assoc. reflexivity.
    + reflexivity.
Qed.

(** The intervals [updateBpm] averages are the valid intervals of the
    history. *)
Lemma updateBpm_intervals (times : list Q) :
  match times with
  | [] => []
  | t0 :: rest => collect_intervals t0 rest []
  end = valid_intervals times.
Proof.
  destruct times as [| t0 rest]; [reflexivity |].
  rewrite collect_intervals_spec. reflexivity.
Qed.

Lemma valid_intervals_Forall (times : list Q) :
  Forall (fun x => MIN_ONSET_INTERVAL_MS <= x <= MAX_ONSET_INTERVAL_MS)
         (valid_intervals times).
Proof.
  unfold valid_intervals. apply List.Forall_forall. intros x Hx.
  apply List.filter_In in Hx. apply valid_interval_bounds, Hx.
Qed.

(** The tempo of a mean valid interval needs no clamping. *)
Lemma tempo_in_range (avgInterval : Q) :
  MIN_ONSET_INTERVAL_MS <= avgInterval <= MAX_ONSET_INTERVAL_MS ->
  MIN_BPM <= 60000 / avgInterval <= MAX_BPM.
Proof.
  unfold MIN_ONSET_INTERVAL_MS, MAX_ONSET_INTERVAL_MS, MIN_BPM, MAX_BPM.
  intros [H0 H1]. split.
  - apply Qle_shift_div_l; lra.
  - apply Qle_shift_div_r; lra.
Qed.

Lemma updateBpm_fields (d : BpmDetector) :
  onsetTimes (updateBpm d) = onsetTimes d
  /\ lastEnergy (updateBpm d) = lastEnergy d
  /\ lastOnsetTime (updateBpm d) = lastOnsetTime d.
Proof.
  unfold updateBpm. destruct (0 <? length _)%nat; simpl; auto.
Qed.

Lemma updateBpm_none (d : BpmDetector) :
  valid_intervals (onsetTimes d) = [] -> updateBpm d = d.
Proof.
  intros Hnil. unfold updateBpm. rewrite updateBpm_intervals, Hnil.
  reflexivity.
Qed.

Lemma updateBpm_some (d : BpmDetector) :
  valid_intervals (onsetTimes d) <> [] ->
  currentBpm (updateBpm d) == 60000 / mean (valid_intervals (onsetTimes d)).
Proof.
  intros Hne. unfold updateBpm. rewrite updateBpm_intervals.
  destruct (Nat.ltb_spec 0 (length (valid_intervals (onsetTimes d))))
    as [_ | Hlen].
  - simpl.
    assert (E : foldl Qplus 0 (valid_intervals (onsetTimes d))
                / inject_Z (Z.of_nat (length (valid_intervals (onsetTimes d))))
                == mean (valid_intervals (onsetTimes d))).
    { unfold mean. apply Qdiv_comp; [| reflexivity].
      rewrite foldl_Qplus. lra. }
    rewrite constrainBpm_id.
    + apply Qdiv_comp; [reflexivity | exact E].
    + rewrite E. apply tempo_in_range, mean_bounds;
        [exact Hne | apply valid_intervals_Forall].
  - destruct (valid_intervals (onsetTimes d)); [contradiction |].
    simpl in Hlen. lia.
Qed.

Lemma updateBpm_range (d : BpmDetector) :
  MIN_BPM <= currentBpm d <= MAX_BPM ->
  MIN_BPM <= currentBpm (updateBpm d) <= MAX_BPM.
Proof.
  intros H. unfold updateBpm. destruct (0 <? length _)%nat; simpl.
  - apply constrainBpm_range.
  - exact H.
Qed.

Lemma inter_onset_intervals_short (times : list Q) :
  (length times < 2)%nat -> inter_onset_intervals times = [].
Proof.
  destruct times as [| t0 [| t1 rest]]; simpl; intros H; [reflexivity ..| lia].
Qed.

Lemma processEnergy_flag (d : BpmDetector) (energy timestamp : Q) :
  (processEnergy d energy timestamp).1 = true
  <-> onset_after d energy timestamp.
Proof.
  unfold processEnergy, onset_after.
  rewrite <- (gt_true (energy - lastEnergy d)), <- (gt_true (timestamp - _)).
  rewrite <- andb_true_iff.
  destruct (gt (energy - lastEnergy d) ONSET_THRESHOLD
            && gt (timestamp - lastOnsetTime d) MIN_ONSET_INTERVAL_MS);
    simpl; intuition congruence.
Qed.

Lemma processEnergy_quiet (d : BpmDetector) (energy timestamp : Q) :
  (processEnergy d energy timestamp).1 = false ->
  (processEnergy d energy timestamp).2
  = {| onsetTimes := onsetTimes d; lastEnergy := energy;
       lastOnsetTime := lastOnsetTime d; currentBpm := currentBpm d |}.
Proof.
  unfold processEnergy.
  destruct (gt (energy - lastEnergy d) ONSET_THRESHOLD
            && gt (timestamp - lastOnsetTime d) MIN_ONSET_INTERVAL_MS);
    simpl; [discriminate | reflexivity].
Qed.

Lemma processEnergy_onset (d : BpmDetector) (energy timestamp : Q) :
  (processEnergy d energy timestamp).1 = true ->
  let d' := (processEnergy d energy timestamp).2 in
  let valid := valid_intervals (onsetTimes d') in
  onsetTimes d' = append_onset ONSET_HISTORY_SIZE (onsetTimes d) timestamp
  /\ lastEnergy d' = energy
  /\ lastOnsetTime d' = timestamp
  /\ (valid = [] -> currentBpm d' = currentBpm d)
  /\ (valid <> [] -> currentBpm d' == 60000 / mean valid).
Proof.
  unfold processEnergy, append_onset.
  destruct (gt (energy - lastEnergy d) ONSET_THRESHOLD
            && gt (timestamp - lastOnsetTime d) MIN_ONSET_INTERVAL_MS);
    [intros _ | discriminate].
  cbn [fst snd].
  set (pushed := onsetTimes d ++ [timestamp]).
  assert (Hdrop : drop 1 pushed = tail pushed)
    by (destruct pushed; reflexivity).
  rewrite Hdrop.
  set (kept := if (ONSET_HISTORY_SIZE <? length pushed)%nat
               then tail pushed else pushed).
  set (d1 := {| onsetTimes := kept; lastEnergy := energy;
                lastOnsetTime := timestamp; currentBpm := currentBpm d |}).
  destruct (Nat.leb_spec 2 (length kept)) as [Hlen | Hlen]; cbn zeta.
  - destruct (updateBpm_fields d1) as (E1 & E2 & E3).
    rewrite E1, E2, E3. repeat split.
    + intros Hnil. rewrite updateBpm_none by exact Hnil. reflexivity.
    + intros Hne. apply (updateBpm_some d1 Hne).
  - repeat split.
    intros Hne. exfalso. apply Hne. unfold valid_intervals. simpl.
    rewrite inter_onset_intervals_short by exact Hlen. reflexivity.
Qed.

Lemma processEnergy_range (d : BpmDetector) (energy timestamp : Q) :
  MIN_BPM <= currentBpm d <= MAX_BPM ->
  MIN_BPM <= currentBpm (processEnergy d energy timestamp).2 <= MAX_BPM.
Proof.
  intros H. unfold processEnergy.
  destruct (gt (energy - lastEnergy d) ONSET_THRESHOLD
            && gt (timestamp - lastOnsetTime d) MIN_ONSET_INTERVAL_MS);
    cbn [snd]; [| exact H].
  destruct (2 <=? length _)%nat; [| exact H].
  apply updateBpm_range. exact H.
Qed.

Lemma new_BpmDetector_inv : detector_inv new_BpmDetector.
Proof.
  split; simpl; [unfold MIN_BPM, MAX_BPM; lra | lia | reflexivity].
Qed.

Lemma append_onset_length (capacity : nat) (times : list Q) (t : Q) :
  (length times <= capacity)%nat ->
  (length (append_onset capacity times t) <= capacity)%nat.
Proof.
  intros H. unfold append_onset.
  destruct (Nat.ltb_spec capacity (length (times ++ [t]))) as [Hgt | Hle].
  - destruct times; simpl in *; rewrite ?length_app in *; simpl in *; lia.
  - exact Hle.
Qed.

Lemma append_onset_last (capacity : nat) (times : list Q) (t : Q) :
  (0 < capacity)%nat -> last (append_onset capacity times t) = Some t.
Proof.
  intros Hcap. unfold append_onset.
  destruct (Nat.ltb_spec capacity (length (times ++ [t]))) as [Hgt | Hle].
  - destruct times as [| t0 times].
    + simpl in Hgt. lia.
    + simpl. apply last_snoc.
  - apply last_snoc.
Qed.

Lemma detector_step_inv (d : BpmDetector) (c : DetectorCall) :
  detector_inv d -> detector_inv (detector_step d c).
Proof.
  intros [Hbpm Hhist Hlast]. destruct c as [energy timestamp |].
  - simpl. destruct ((processEnergy d energy timestamp).1) eqn:Hflag.
    + destruct (processEnergy_onset d energy timestamp Hflag)
        as (E1 & _ & E3 & _).
      split.
      * apply processEnergy_range, Hbpm.
      * rewrite E1. apply append_onset_length, Hhist.
      * unfold last_onset_time. rewrite E1, E3, append_onset_last;
          [reflexivity |].
        unfold ONSET_HISTORY_SIZE. lia.
    + rewrite processEnergy_quiet by exact Hflag.
      split; simpl; assumption.
  - exact new_BpmDetector_inv.
Qed.

Lemma processEnergy_inv (d : BpmDetector) (energy timestamp : Q) :
  detector_inv d -> detector_inv (processEnergy d energy timestamp).2.
Proof. exact (detector_step_inv d (ProcessEnergy energy timestamp)). Qed.

Lemma detector_run_inv (calls : list DetectorCall) :
  forall d : BpmDetector, detector_inv d -> detector_inv (detector_run calls d).
Proof.
  induction calls as [| c calls IH]; intros d Hd; simpl.
  - exact Hd.
  - apply IH, detector_step_inv, Hd.
Qed.

Lemma detector_run_snoc (calls : list DetectorCall) (c : DetectorCall)
    (d : BpmDetector) :
  detector_run (calls ++ [c]) d = detector_step (detector_run calls d) c.
Proof. unfold detector_run. apply foldl_snoc. Qed.

Lemma processEnergy_lastEnergy (d : BpmDetector) (energy timestamp : Q) :
  lastEnergy (processEnergy d energy timestamp).2 = energy.
Proof.
  destruct ((processEnergy d energy timestamp).1) eqn:Hflag.
  - apply (processEnergy_onset d energy timestamp Hflag).
  - rewrite processEnergy_quiet by exact Hflag. reflexivity.
Qed.

Lemma detector_run_lastEnergy (calls : list DetectorCall) :
  lastEnergy (detector_run calls new_BpmDetector) = previous_energy calls.
Proof.
  unfold previous_energy.
  destruct calls as [| c0 calls] using rev_ind; [reflexivity |].
  rewrite detector_run_snoc, last_snoc.
  destruct c0 as [energy timestamp |]; simpl.
  - apply processEnergy_lastEnergy.
  - reflexivity.
Qed.

(** ** Float32: powers of two *)

Lemma pow2_pos (e : Z) : 0 < 2 ^ e.
Proof. apply Qpower_0_lt. reflexivity. Qed.

Lemma pow2_le (a b : Z) : (a <= b)%Z -> 2 ^ a <= 2 ^ b.
Proof. intros H. apply Qpower_le_compat_l; [exact H | discriminate]. Qed.

Lemma pow2_lt (a b : Z) : (a < b)%Z -> 2 ^ a < 2 ^ b.
Proof. intros H. apply Qpower_lt_compat_l; [exact H | reflexivity]. Qed.

Lemma pow2_plus (a b : Z) : 2 ^ (a + b) == 2 ^ a * 2 ^ b.
Proof. apply Qpower_plus. discriminate. Qed.

Lemma pow2_inject (n : Z) : (0 <= n)%Z -> inject_Z (2 ^ n) == 2 ^ n.
Proof. intros H. apply (Zpower_Qpower 2 n H). Qed.

Lemma pow2_opp (n : Z) : 2 ^ (- n) == / 2 ^ n.
Proof. apply Qpower_opp. Qed.

(** ** Float32: the binade *)

Lemma binade_spec (x : Q) :
  0 < x -> 2 ^ binade x <= x /\ x < 2 ^ (binade x + 1).
Proof.
  intros Hx. unfold binade. destruct (Qle_bool 1 x) eqn:H1.
  - apply Qle_bool_iff in H1.
    assert (Hn : (1 <= Qfloor x)%Z).
    { change 1%Z with (Qfloor 1). apply Qfloor_resp_le, H1. }
    destruct (Z.log2_spec (Qfloor x)) as [Hlo Hhi]; [lia |].
    pose proof (Z.log2_nonneg (Qfloor x)) as Hk.
    split.
    + rewrite <- pow2_inject by exact Hk.
      apply Qle_trans with (inject_Z (Qfloor x)); [| apply Qfloor_le].
      rewrite <- Zle_Qle. exact Hlo.
    + rewrite <- pow2_inject by lia.
      apply Qlt_le_trans with (inject_Z (Qfloor x + 1)); [apply Qlt_floor |].
      rewrite <- Zle_Qle. lia.
  - assert (Hlt : x < 1).
    { apply Qnot_le_lt. intros H. apply Qle_bool_iff in H. congruence. }
    assert (Hinv : 0 < / x) by (apply Qinv_lt_0_compat, Hx).
    assert (Hxy : x * / x == 1) by (apply Qmult_inv_r; lra).
    assert (Hy : 1 < / x).
    { apply Qnot_le_lt. intros H.
      assert (x * / x <= x * 1) by (apply Qmult_le_l; assumption). lra. }
    set (c := Qceiling (/ x)).
    assert (Hc : (1 < c)%Z).
    { rewrite Zlt_Qlt. apply Qlt_le_trans with (/ x); [exact Hy |].
      apply Qle_ceiling. }
    destruct (Z.log2_up_spec c Hc) as [Hlo Hhi].
    pose proof (Z.log2_up_pos c Hc) as Hk.
    set (k := Z.log2_up c) in *.
    split.
    + rewrite pow2_opp, <- pow2_inject by lia.
      assert (Hle : / x <= inject_Z (2 ^ k)).
      { apply Qle_trans with (inject_Z c); [apply Qle_ceiling |].
        rewrite <- Zle_Qle. exact Hhi. }
      assert (Hp : 0 < inject_Z (2 ^ k)) by lra.
      apply Qle_shift_inv_r; [exact Hp |].
      assert (x * / x <= x * inject_Z (2 ^ k))
        by (apply Qmult_le_l; assumption).
      lra.
    + replace (- k + 1)%Z with (- (k - 1))%Z by lia.
      rewrite pow2_opp, <- pow2_inject by lia.
      assert (Hlt' : inject_Z (2 ^ (k - 1)) < / x).
      { apply Qnot_le_lt. intros H.
        apply Qceiling_resp_le in H. rewrite Qceiling_Z in H.
        fold c in H. replace (Z.pred k) with (k - 1)%Z in Hlo by lia. lia. }
      assert (Hp : 0 < inject_Z (2 ^ (k - 1))).
      { change 0 with (inject_Z 0). rewrite <- Zlt_Qlt.
        apply Z.pow_pos_nonneg; lia. }
      apply Qlt_shift_inv_l; [exact Hp |].
      assert (x * inject_Z (2 ^ (k - 1)) < x * / x)
        by (apply Qmult_lt_l; assumption).
      lra.
Qed.

(** ** Float32: rounding to the nearest integer *)

Lemma round_half_even_cases (x : Q) :
  let n := Qfloor x in
  let r := x - inject_Z n in
  0 <= r /\ r < 1
  /\ ((r < 1 # 2 /\ round_half_even x = n)
      \/ (1 # 2 < r /\ round_half_even x = (n + 1)%Z)
      \/ (r == 1 # 2 /\ (round_half_even x = n
                         \/ round_half_even x = (n + 1)%Z))).
Proof.
  intros n r.
  pose proof (Qfloor_le x) as Hlo. pose proof (Qlt_floor x) as Hhi.
  fold n in Hlo, Hhi. rewrite inject_Z_plus in Hhi.
  change (inject_Z 1) with 1 in Hhi.
  split; [unfold r; lra |]. split; [unfold r; lra |].
  unfold round_half_even. fold n. fold r.
  destruct (Qcompare_spec r (1 # 2)) as [E | E | E].
  - right; right. split; [exact E |]. destruct (Z.even n); auto.
  - left. auto.
  - right; left. auto.
Qed.

Lemma round_half_even_near (x : Q) :
  inject_Z (round_half_even x) - (1 # 2) <= x
  /\ x <= inject_Z (round_half_even x) + (1 # 2).
Proof.
  destruct (round_half_even_cases x) as (H0 & H1 & H).
  destruct H as [[Hr ->] | [[Hr ->] | [Hr [-> | ->]]]];
    rewrite ?inject_Z_plus; change (inject_Z 1) with 1; lra.
Qed.

Lemma round_half_even_comp (x y : Q) :
  x == y -> round_half_even x = round_half_even y.
Proof.
  intros E. unfold round_half_even.
  rewrite (Qfloor_comp x y E).
  assert (E' : x - inject_Z (Qfloor y) == y - inject_Z (Qfloor y))
    by (rewrite E; reflexivity).
  rewrite (Qcompare_comp _ _ E' (1 # 2) (1 # 2) (Qeq_refl _)).
  reflexivity.
Qed.

Lemma round_half_even_Z (n : Z) : round_half_even (inject_Z n) = n.
Proof.
  unfold round_half_even. rewrite Qfloor_Z.
  assert (E : inject_Z n - inject_Z n == 0) by ring.
  rewrite (Qcompare_comp _ _ E (1 # 2) (1 # 2) (Qeq_refl _)).
  reflexivity.
Qed.

Lemma round_half_even_le (x y : Q) :
  x <= y -> (round_half_even x <= round_half_even y)%Z.
Proof.
  intros Hxy.
  pose proof (Qfloor_resp_le x y Hxy) as Hfl.
  destruct (round_half_even_cases x) as (Hx0 & Hx1 & Hx).
  destruct (round_half_even_cases y) as (Hy0 & Hy1 & Hy).
  destruct (Z.eq_dec (Qfloor x) (Qfloor y)) as [E | E].
  - rewrite E in *.
    destruct Hx as [[Hrx Hx] | [[Hrx Hx] | [Hrx Hx]]];
      destruct Hy as [[Hry Hy] | [[Hry Hy] | [Hry Hy]]];
      try (exfalso; lra); try lia.
    assert (Exy : x == y) by lra.
    rewrite (round_half_even_comp x y Exy). lia.
  - assert (Hlt : (Qfloor x + 1 <= Qfloor y)%Z) by lia.
    assert (Hxu : (round_half_even x <= Qfloor x + 1)%Z).
    { destruct Hx as [[_ ->] | [[_ ->] | [_ [-> | ->]]]]; lia. }
    assert (Hyl : (Qfloor y <= round_half_even y)%Z).
    { destruct Hy as [[_ ->] | [[_ ->] | [_ [-> | ->]]]]; lia. }
    lia.
Qed.

(** ** Float32: rounding a positive number *)

Lemma ulp_pos (x : Q) : 0 < float32_ulp x.
Proof. apply pow2_pos. Qed.

Lemma scaled_ulp (x : Q) : x / float32_ulp x * float32_ulp x == x.
Proof. field. pose proof (ulp_pos x). lra. Qed.

Lemma top_of_binade (x : Q) :
  2 ^ (float32_exponent x + 1) == inject_Z (2 ^ 24) * float32_ulp x.
Proof.
  unfold float32_ulp. rewrite pow2_inject by lia. rewrite <- pow2_plus.
  replace (24 + (float32_exponent x - 23))%Z
    with (float32_exponent x + 1)%Z by lia.
  reflexivity.
Qed.

Lemma bottom_of_binade (x : Q) :
  2 ^ float32_exponent x == inject_Z (2 ^ 23) * float32_ulp x.
Proof.
  unfold float32_ulp. rewrite pow2_inject by lia. rewrite <- pow2_plus.
  replace (23 + (float32_exponent x - 23))%Z
    with (float32_exponent x) by lia.
  reflexivity.
Qed.

Lemma below_top (x : Q) : 0 < x -> x < 2 ^ (float32_exponent x + 1).
Proof.
  intros Hx. destruct (binade_spec x Hx) as [_ Hhi].
  apply Qlt_le_trans with (2 ^ (binade x + 1)); [exact Hhi |].
  apply pow2_le. unfold float32_exponent. lia.
Qed.

Lemma fround_pos_near (x : Q) :
  x - (1 # 2) * float32_ulp x <= fround_pos x
  /\ fround_pos x <= x + (1 # 2) * float32_ulp x.
Proof.
  unfold fround_pos. cbv zeta.
  destruct (round_half_even_near (x / float32_ulp x)) as [Hlo Hhi].
  set (m := inject_Z (round_half_even (x / float32_ulp x))) in *.
  pose proof (ulp_pos x) as Hu. pose proof (scaled_ulp x) as Hs.
  set (ulp := float32_ulp x) in *.
  assert (H1 : (m - (1 # 2)) * ulp <= x / ulp * ulp)
    by (apply Qmult_le_compat_r; lra).
  assert (H2 : x / ulp * ulp <= (m + (1 # 2)) * ulp)
    by (apply Qmult_le_compat_r; lra).
  rewrite Hs in H1, H2. clear Hs Hlo Hhi.
  assert (E1 : (m - (1 # 2)) * ulp == m * ulp - (1 # 2) * ulp) by ring.
  assert (E2 : (m + (1 # 2)) * ulp == m * ulp + (1 # 2) * ulp) by ring.
  rewrite E1 in H1. rewrite E2 in H2.
  set (p := m * ulp) in *. split; lra.
Qed.

Lemma fround_pos_upper (x : Q) :
  0 < x -> fround_pos x <= 2 ^ (float32_exponent x + 1).
Proof.
  intros Hx. unfold fround_pos. cbv zeta. rewrite top_of_binade.
  pose proof (ulp_pos x) as Hu.
  apply Qmult_le_compat_r; [| lra].
  rewrite <- Zle_Qle. rewrite <- (round_half_even_Z (2 ^ 24)).
  apply round_half_even_le. apply Qle_shift_div_r; [exact Hu |].
  rewrite <- top_of_binade. apply Qlt_le_weak, below_top, Hx.
Qed.

Lemma fround_pos_lower (x : Q) :
  0 < x -> (-126 <= binade x)%Z -> 2 ^ float32_exponent x <= fround_pos x.
Proof.
  intros Hx Hb. unfold fround_pos. cbv zeta. rewrite bottom_of_binade.
  pose proof (ulp_pos x) as Hu.
  apply Qmult_le_compat_r; [| lra].
  rewrite <- Zle_Qle. rewrite <- (round_half_even_Z (2 ^ 23)).
  apply round_half_even_le. apply Qle_shift_div_l; [exact Hu |].
  rewrite <- bottom_of_binade.
  destruct (binade_spec x Hx) as [Hlo _].
  replace (float32_exponent x) with (binade x)
    by (unfold float32_exponent; lia).
  exact Hlo.
Qed.

Lemma fround_pos_nonneg (x : Q) : 0 < x -> 0 <= fround_pos x.
Proof.
  intros Hx. unfold fround_pos. cbv zeta. pose proof (ulp_pos x) as Hu.
  apply Qmult_le_0_compat; [| lra].
  change 0 with (inject_Z 0). rewrite <- Zle_Qle.
  rewrite <- (round_half_even_Z 0). apply round_half_even_le.
  apply Qle_shift_div_l; [exact Hu |].
  change (inject_Z 0) with 0. rewrite Qmult_0_l. lra.
Qed.

Lemma float32_exponent_le (x y : Q) :
  0 < x -> x <= y -> (float32_exponent x <= float32_exponent y)%Z.
Proof.
  intros Hx Hxy. assert (Hy : 0 < y) by lra.
  destruct (binade_spec x Hx) as [Hlo _].
  destruct (binade_spec y Hy) as [_ Hhi].
  assert (Hlt : 2 ^ binade x < 2 ^ (binade y + 1)) by lra.
  apply Qpower_lt_compat_l_inv in Hlt; [| reflexivity].
  unfold float32_exponent. lia.
Qed.

Lemma fround_pos_le (x y : Q) :
  0 < x -> x <= y -> fround_pos x <= fround_pos y.
Proof.
  intros Hx Hxy. assert (Hy : 0 < y) by lra.
  pose proof (float32_exponent_le x y Hx Hxy) as He.
  destruct (Z.eq_dec (float32_exponent x) (float32_exponent y)) as [E | E].
  - unfold fround_pos. cbv zeta. unfold float32_ulp. rewrite E.
    fold (float32_ulp y). pose proof (ulp_pos y) as Hu.
    apply Qmult_le_compat_r; [| lra].
    rewrite <- Zle_Qle. apply round_half_even_le.
    apply Qmult_le_compat_r; [exact Hxy |].
    apply Qlt_le_weak, Qinv_lt_0_compat, Hu.
  - assert (Hlt : (float32_exponent x + 1 <= float32_exponent y)%Z) by lia.
    apply Qle_trans with (2 ^ (float32_exponent x + 1));
      [apply fround_pos_upper, Hx |].
    apply Qle_trans with (2 ^ float32_exponent y); [apply pow2_le, Hlt |].
    apply fround_pos_lower; [exact Hy |].
    unfold float32_exponent in *. lia.
Qed.

(** ** Float32: [fround] *)

Lemma fround_comp (x y : Q) : x == y -> fround x = fround y.
Proof.
  intros E. unfold fround. rewrite (Qred_complete x y E). reflexivity.
Qed.

Lemma fround_positive (x : Q) : 0 < x -> fround x = fround_pos (Qred x).
Proof.
  intros Hx. unfold fround. cbv zeta.
  assert (H : 0 < Qred x) by (rewrite Qred_correct; exact Hx).
  apply Qgt_alt in H. rewrite H. reflexivity.
Qed.

Lemma fround_zero (x : Q) : x == 0 -> fround x = 0.
Proof. intros E. rewrite (fround_comp x 0 E). reflexivity. Qed.

Lemma fround_nonneg (x : Q) : 0 <= x -> 0 <= fround x.
Proof.
  intros Hx. destruct (Qlt_le_dec 0 x) as [Hpos | Hle].
  - rewrite fround_positive by exact Hpos. apply fround_pos_nonneg.
    rewrite Qred_correct. exact Hpos.
  - rewrite fround_zero by lra. apply Qle_refl.
Qed.

Lemma fround_le (x y : Q) : 0 <= x -> x <= y -> fround x <= fround y.
Proof.
  intros Hx Hxy. destruct (Qlt_le_dec 0 x) as [Hpos | Hle].
  - rewrite (fround_positive x) by exact Hpos.
    rewrite (fround_positive y) by lra.
    apply fround_pos_le; rewrite !Qred_correct; assumption.
  - rewrite (fround_zero x) by lra. apply fround_nonneg. lra.
Qed.

Lemma fround_one : fround 1 == 1.
Proof. reflexivity. Qed.

Lemma fround_unit (x : Q) : 0 <= x <= 1 -> 0 <= fround x <= 1.
Proof.
  intros [H0 H1]. split; [apply fround_nonneg, H0 |].
  rewrite <- fround_one. apply fround_le; assumption.
Qed.

(** Below 1 the spacing of float32 is at most [2 ^ -24], so that rounding
    moves a number of [0, 1] by at most [2 ^ -25]. *)
Lemma fround_near (x : Q) :
  0 <= x <= 1 ->
  x - (1 # 33554432) <= fround x /\ fround x <= x + (1 # 33554432).
Proof.
  intros [H0 H1].
  destruct (Qlt_le_dec 0 x) as [Hpos | Hle];
    [| rewrite fround_zero by lra; split; lra].
  destruct (Qlt_le_dec x 1) as [Hlt | Hge].
  - rewrite fround_positive by exact Hpos.
    assert (Hr : 0 < Qred x) by (rewrite Qred_correct; exact Hpos).
    destruct (fround_pos_near (Qred x)) as [Hlo Hhi].
    pose proof (Qred_correct x) as Er.
    assert (Hulp : float32_ulp (Qred x) <= 1 # 16777216).
    { unfold float32_ulp.
      change (1 # 16777216) with (2 ^ (-24)). apply pow2_le.
      destruct (binade_spec (Qred x) Hr) as [Hb _].
      assert (Hb' : 2 ^ binade (Qred x) < 2 ^ 0)
        by (change (2 ^ 0) with 1; lra).
      apply Qpower_lt_compat_l_inv in Hb'; [| reflexivity].
      unfold float32_exponent. lia. }
    pose proof (ulp_pos (Qred x)) as Hu.
    set (ulp := float32_ulp (Qred x)) in *.
    set (xr := Qred x) in *.
    clearbody ulp xr. split; lra.
  - rewrite (fround_comp x 1) by lra.
    pose proof fround_one as E. split; lra.
Qed.

(** ** Normalization of the frequency data *)

Lemma normalize_db_clamp (db : Q) :
  normalize_db db == affine (-100) 0 (clamp (-100) 0 db).
Proof.
  unfold normalize_db, affine.
  apply Qdiv_comp; [| reflexivity].
  rewrite max_min_clamp by lra. reflexivity.
Qed.

Lemma normalize_db_unit (db : Q) : unit_interval (normalize_db db).
Proof.
  unfold unit_interval. rewrite normalize_db_clamp. unfold affine.
  pose proof (clamp_range (-100) 0 db) as H.
  split.
  - apply Qle_shift_div_l; lra.
  - apply Qle_shift_div_r; lra.
Qed.

Lemma normalize_loop_length (rest : list Q) :
  forall (i : nat) (out : list Q),
    length (normalize_loop i rest out) = length out.
Proof.
  induction rest as [| db rest IH]; intros i out; simpl.
  - reflexivity.
  - rewrite IH. apply length_insert.
Qed.

Lemma normalize_loop_before (rest : list Q) :
  forall (i j : nat) (out : list Q),
    (j < i)%nat -> normalize_loop i rest out !! j = out !! j.
Proof.
  induction rest as [| db rest IH]; intros i j out Hlt; simpl.
  - reflexivity.
  - rewrite IH by lia. apply list_lookup_insert_ne. lia.
Qed.

Lemma normalize_loop_at (rest : list Q) :
  forall (i k : nat) (out : list Q) (db : Q),
    rest !! k = Some db -> (i + k < length out)%nat ->
    normalize_loop i rest out !! (i + k)%nat
    = Some (fround (normalize_db db)).
Proof.
  induction rest as [| db0 rest IH]; intros i k out db Hk Hlen.
  - discriminate.
  - simpl. destruct k as [| k].
    + injection Hk as ->. rewrite Nat.add_0_r in *.
      rewrite normalize_loop_before by lia.
      apply list_lookup_insert_eq. exact Hlen.
    + replace (i + S k)%nat with (S i + k)%nat by lia.
      apply IH; [exact Hk |]. rewrite length_insert. lia.
Qed.

Lemma normalize_loop_unit (rest out : list Q) :
  (length out <= length rest)%nat ->
  Forall unit_interval (normalize_loop 0 rest out).
Proof.
  intros Hlen. apply Forall_lookup. intros j v Hj.
  assert (Hjlen : (j < length out)%nat).
  { rewrite <- (normalize_loop_length rest 0 out).
    apply lookup_lt_is_Some. eauto. }
  destruct (lookup_lt_is_Some_2 rest j) as [db Hdb]; [lia |].
  pose proof (normalize_loop_at rest 0 j out db Hdb Hjlen) as E.
  simpl in E. rewrite E in Hj. injection Hj as <-.
  apply fround_unit, normalize_db_unit.
Qed.

Lemma getFloatFrequencyData_length (freq array : list Q) :
  length (getFloatFrequencyData freq array) = length array.
Proof.
  unfold getFloatFrequencyData.
  rewrite length_app, length_take, length_drop. lia.
Qed.

Lemma getFloatFrequencyData_lookup (freq array : list Q) (i : nat) (db : Q) :
  (i < length array)%nat -> freq !! i = Some db ->
  getFloatFrequencyData freq array !! i = Some db.
Proof.
  intros Hi Hdb. unfold getFloatFrequencyData.
  rewrite lookup_app_l.
  - rewrite lookup_take_lt by exact Hi. exact Hdb.
  - rewrite length_take. apply lookup_lt_Some in Hdb. lia.
Qed.

(** ** The analyzer *)

Lemma getAnalysis_silent (now : Q) (freq : list Q) (a : AudioAnalyzer) :
  isConnected a = false \/ analyserNode a = None ->
  getAnalysis now freq a = (createSilentAnalysis now, a).
Proof.
  intros H.
  assert (G : negb (isConnected a) || is_null (analyserNode a) = true).
  { destruct H as [-> | ->]; [reflexivity | apply orb_true_r]. }
  unfold getAnalysis. rewrite G. reflexivity.
Qed.

Lemma getAnalysis_connected (now : Q) (freq : list Q) (a : AudioAnalyzer) :
  negb (isConnected a) || is_null (analyserNode a) = false ->
  let spectrum :=
    normalize_loop 0 (getFloatFrequencyData freq (fftData a))
      (normalizedFft a) in
  let e := calculateEnergyBands spectrum FFT_SIZE (analysis_rate a) in
  let r := processEnergy (bpmDetector a) (total e) now in
  getAnalysis now freq a
  = ({| timestamp := now; fft := spectrum; energy := e;
        bpm := getBpm r.2; beat := r.1 |},
     {| audioContext := audioContext a;
        analyserNode := analyserNode a;
        fftData := getFloatFrequencyData freq (fftData a);
        normalizedFft := spectrum;
        bpmDetector := r.2;
        isConnected := isConnected a |}).
Proof.
  intros G. unfold getAnalysis. rewrite G.
  cbv zeta. unfold analysis_rate, normalizeFftData.
  cbn [audioContext analyserNode fftData normalizedFft bpmDetector
       isConnected].
  destruct (processEnergy _ _ _) as [flag detector]. reflexivity.
Qed.

Lemma getAnalysis_fft (now : Q) (freq : list Q) (a : AudioAnalyzer) :
  isConnected a = true -> is_Some (analyserNode a) ->
  fft (getAnalysis now freq a).1
  = normalize_loop 0 (getFloatFrequencyData freq (fftData a))
      (normalizedFft a).
Proof.
  intros Hc [node Hn]. rewrite getAnalysis_connected.
  - reflexivity.
  - rewrite Hc, Hn. reflexivity.
Qed.

Lemma normalized_spectrum_unit (freq array out : list Q) :
  length array = length out ->
  Forall unit_interval
    (normalize_loop 0 (getFloatFrequencyData freq array) out).
Proof.
  intros Hlen. apply normalize_loop_unit.
  rewrite getFloatFrequencyData_length, Hlen. reflexivity.
Qed.

Lemma new_AudioAnalyzer_inv : analyzer_inv new_AudioAnalyzer.
Proof.
  split; [split; apply length_replicate | apply new_BpmDetector_inv].
Qed.

Lemma analyzer_step_inv (a : AudioAnalyzer) (c : AnalyzerCall) :
  analyzer_inv a -> analyzer_inv (analyzer_step a c).
Proof.
  intros [[H1 H2] Hd]. destruct c as [rate | | now freq |];
    cbn [analyzer_step].
  - split; [split |]; assumption.
  - split; [split; assumption | apply new_BpmDetector_inv].
  - destruct (negb (isConnected a) || is_null (analyserNode a)) eqn:G.
    + assert (E : getAnalysis now freq a = (createSilentAnalysis now, a)).
      { unfold getAnalysis. rewrite G. reflexivity. }
      rewrite E. split; [split |]; assumption.
    + rewrite (getAnalysis_connected now freq a G). cbn [snd].
      split; [split |]; cbn [fftData normalizedFft bpmDetector].
      * rewrite getFloatFrequencyData_length. exact H1.
      * rewrite normalize_loop_length. exact H2.
      * apply processEnergy_inv, Hd.
  - split; [split; assumption | apply new_BpmDetector_inv].
Qed.

Lemma analyzer_run_inv (calls : list AnalyzerCall) :
  forall a : AudioAnalyzer,
    analyzer_inv a -> analyzer_inv (analyzer_run calls a).
Proof.
  induction calls as [| c calls IH]; intros a Ha; simpl.
  - exact Ha.
  - apply IH, analyzer_step_inv, Ha.
Qed.

(** * The properties of the specification *)

(** ** Energy bands *)

(** C1.  For every spectrum whose bins all lie in [0,1] (and a positive
    FFT size and sample rate), the four fields [calculateEnergyBands]
    returns lie in [0,1], and [total] is
    [0.5 * low + 0.3 * mid + 0.2 * high] clamped to [0,1]. *)
Theorem calculateEnergyBands_unit
    (fftData : list Q) (fftSize sampleRate : Q) :
  0 < fftSize -> 0 < sampleRate ->
  Forall unit_interval fftData ->
  let e := calculateEnergyBands fftData fftSize sampleRate in
  unit_interval (low e) /\ unit_interval (mid e) /\ unit_interval (high e)
  /\ unit_interval (total e)
  /\ total e == clamp 0 1 (0.5 * low e + 0.3 * mid e + 0.2 * high e).
Proof.
  intros _ _ Hall e.
  destruct (energy_bands_unit fftData fftSize sampleRate Hall)
    as (Hlow & Hmid & Hhigh & Htotal).
  repeat split; try apply Hlow; try apply Hmid; try apply Hhigh;
    try apply Htotal.
  apply energy_total_clamp.
Qed.

Lemma calculateEnergyBands_unit_witness :
  let e := calculateEnergyBands [0.5; 1; 0; 0.25] 16 64000 in
  unit_interval (low e) /\ unit_interval (mid e) /\ unit_interval (high e)
  /\ unit_interval (total e)
  /\ total e == clamp 0 1 (0.5 * low e + 0.3 * mid e + 0.2 * high e).
Proof.
  apply calculateEnergyBands_unit; [reflexivity | reflexivity |].
  repeat constructor; discriminate.
Defined.

(** C7, as the code has it.  The energy of a band is the arithmetic mean
    of the bins of its range when the range is not empty and lies inside
    the array.  It is 0, not an error, in every other case: when the range
    holds no bin, and also when it starts below 0 or ends beyond the
    array, whatever bins of the array it covers. *)
Theorem calculateBandEnergy_mean
    (fftData : list Q) (startBin endBin : Z) :
  ((0 <= startBin < endBin)%Z -> (endBin <= Z.of_nat (length fftData))%Z ->
   calculateBandEnergy fftData startBin endBin
   == mean (bins_in_range fftData startBin endBin))
  /\ (bins_in_range fftData startBin endBin = [] ->
      calculateBandEnergy fftData startBin endBin = 0)
  /\ ((startBin >= endBin \/ startBin < 0
       \/ endBin > Z.of_nat (length fftData))%Z ->
      calculateBandEnergy fftData startBin endBin = 0).
Proof.
  split; [| split].
  - intros H1 H2. apply band_energy_mean. unfold range_rejected. lia.
  - intros Hnil. apply band_energy_rejected, bins_in_range_nil, Hnil.
  - intros R. apply band_energy_rejected, R.
Qed.

Lemma calculateBandEnergy_mean_witness :
  calculateBandEnergy [0.5; 1; 0; 0.25] 1 4 == mean [1; 0; 0.25]
  /\ calculateBandEnergy [0.5; 1; 0; 0.25] 2 2 = 0
  /\ calculateBandEnergy [0.5; 1; 0; 0.25] 1 9 = 0.
Proof.
  destruct (calculateBandEnergy_mean [0.5; 1; 0; 0.25] 1 4) as (H1 & _).
  destruct (calculateBandEnergy_mean [0.5; 1; 0; 0.25] 2 2) as (_ & H2 & _).
  destruct (calculateBandEnergy_mean [0.5; 1; 0; 0.25] 1 9) as (_ & _ & H3).
  split; [apply H1; [lia | discriminate] |].
  split; [apply H2; reflexivity |].
  apply H3. right; right. reflexivity.
Defined.

(** C7, as the specification words it, fails: the range from bin 1 to bin
    12 of an array of three bins holds the bins 1 and 2, whose mean is 1,
    and the energy is 0, because the range ends beyond the array. *)
Lemma band_beyond_array_is_not_a_mean :
  bins_in_range [1; 1; 1] 1 12 = [1; 1]
  /\ mean [1; 1] == 1
  /\ calculateBandEnergy [1; 1; 1] 1 12 = 0
  /\ ~ (calculateBandEnergy [1; 1; 1] 1 12
        == mean (bins_in_range [1; 1; 1] 1 12)).
Proof.
  split; [reflexivity |]. split; [reflexivity |].
  split; [reflexivity | discriminate].
Qed.

(** C9.  [calculateBandEnergy] always returns a number; it returns 0
    without reading the array when [startBin >= endBin], [startBin < 0] or
    [endBin] exceeds the length of the array, and otherwise reads exactly
    the positions of [startBin, endBin), all of them inside the array. *)
Theorem calculateBandEnergy_in_bounds
    (fftData : list Q) (startBin endBin : Z) :
  let run := calculateBandEnergy_scan fftData startBin endBin in
  sum run = Some (calculateBandEnergy fftData startBin endBin)
  /\ ((startBin >= endBin \/ startBin < 0
       \/ endBin > Z.of_nat (length fftData))%Z ->
      calculateBandEnergy fftData startBin endBin = 0 /\ reads run = [])
  /\ (~ (startBin >= endBin \/ startBin < 0
         \/ endBin > Z.of_nat (length fftData))%Z ->
      reads run = seqZ startBin (endBin - startBin)
      /\ Forall (fun i => (startBin <= i < endBin)%Z
                          /\ (0 <= i < Z.of_nat (length fftData))%Z
                          /\ is_Some (at_index fftData i))
                (reads run)).
Proof.
  intros run. split; [apply calculateBandEnergy_scan_value |]. split.
  - intros R. split; [apply band_energy_rejected, R |].
    unfold run. rewrite scan_rejected by exact R. reflexivity.
  - intros R. unfold run. rewrite scan_accepted by exact R.
    split; [reflexivity |]. simpl.
    apply Forall_forall. intros i Hi. apply elem_of_seqZ in Hi.
    assert (Hin : (0 <= i < Z.of_nat (length fftData))%Z) by lia.
    repeat split; try lia. apply at_index_Some, Hin.
Qed.

Lemma calculateBandEnergy_in_bounds_witness :
  (calculateBandEnergy [0.5; 1; 0; 0.25] 3 9 = 0
   /\ reads (calculateBandEnergy_scan [0.5; 1; 0; 0.25] 3 9) = [])
  /\ reads (calculateBandEnergy_scan [0.5; 1; 0; 0.25] 1 4)
     = [1; 2; 3]%Z.
Proof.
  destruct (calculateBandEnergy_in_bounds [0.5; 1; 0; 0.25] 3 9)
    as (_ & Hout & _).
  destruct (calculateBandEnergy_in_bounds [0.5; 1; 0; 0.25] 1 4)
    as (_ & _ & Hin).
  split.
  - apply Hout. right; right. reflexivity.
  - apply Hin. simpl. lia.
Defined.

(** ** Onset detection and tempo *)

(** C2.  After every sequence of [processEnergy] and [reset] calls on a new
    detector, with any energies and timestamps, [getBpm] returns a value in
    [60,200]; the empty sequence gives the default 120. *)
Theorem getBpm_range (calls : list DetectorCall) :
  60 <= getBpm (detector_run calls new_BpmDetector) <= 200
  /\ getBpm (detector_run [] new_BpmDetector) = 120.
Proof.
  split; [| reflexivity].
  apply (inv_bpm _ (detector_run_inv calls _ new_BpmDetector_inv)).
Qed.

(** C3.  When [processEnergy] detects an onset, the history becomes the old
    one with the timestamp appended, the oldest entry evicted if that makes
    more than 16 (a history of at most 16 entries stays so).  The BPM is
    then 60000 divided by the mean of the valid intervals between
    consecutive onsets of that history, an interval being valid when it
    lies between 300 ms and 1000 ms; when no interval is valid the BPM
    keeps its value.  A new detector reports 120. *)
Theorem processEnergy_onset_update
    (d : BpmDetector) (energy timestamp : Q) :
  (processEnergy d energy timestamp).1 = true ->
  let d' := (processEnergy d energy timestamp).2 in
  let valid := valid_intervals (onsetTimes d') in
  onsetTimes d' = append_onset 16 (onsetTimes d) timestamp
  /\ ((length (onsetTimes d) <= 16)%nat -> (length (onsetTimes d') <= 16)%nat)
  /\ (forall interval : Q,
        interval ∈ valid
        <-> interval ∈ inter_onset_intervals (onsetTimes d')
            /\ 300 <= interval <= 1000)
  /\ (valid <> [] -> getBpm d' == 60000 / mean valid)
  /\ (valid = [] -> getBpm d' = getBpm d)
  /\ getBpm new_BpmDetector = 120.
Proof.
  intros Hflag d' valid.
  destruct (processEnergy_onset d energy timestamp Hflag)
    as (E1 & _ & _ & Hnone & Hsome).
  fold d' in E1, Hnone, Hsome. fold valid in Hnone, Hsome.
  split; [exact E1 |]. split.
  { intros Hlen. rewrite E1. apply (append_onset_length 16), Hlen. }
  split.
  { intros interval. unfold valid, valid_intervals.
    rewrite !list_elem_of_In, List.filter_In.
    rewrite <- interval_test_valid, andb_true_iff, ge_true, le_true.
    reflexivity. }
  repeat split; assumption.
Qed.

Lemma processEnergy_onset_update_witness :
  let d := detector_run [ProcessEnergy 1 1000; ProcessEnergy 0 1100]
             new_BpmDetector in
  let d' := (processEnergy d 1 1500).2 in
  onsetTimes d' = [1000; 1500]
  /\ valid_intervals (onsetTimes d') = [1500 - 1000]
  /\ getBpm d' == 60000 / mean [1500 - 1000].
Proof.
  intros d d'.
  pose proof (processEnergy_onset_update d 1 1500 eq_refl) as H.
  split; [apply H |]. split; [reflexivity |].
  apply H. discriminate.
Defined.

(** C4, as the code has it.  After any sequence of calls on a new detector,
    [processEnergy] returns true exactly when the energy exceeds that of the
    previous tick (0 at the start and after a reset) by more than 0.15 and
    more than 300 ms have passed since the last onset of the history (since
    time 0 when the history is empty).  The call stores the energy; an
    onset becomes the last entry of the history, and without an onset the
    history and the BPM are unchanged. *)
Theorem processEnergy_onset_iff
    (calls : list DetectorCall) (energy timestamp : Q) :
  let d := detector_run calls new_BpmDetector in
  let d' := (processEnergy d energy timestamp).2 in
  ((processEnergy d energy timestamp).1 = true
   <-> 0.15 < energy - previous_energy calls
       /\ 300 < timestamp - last_onset_time d)
  /\ lastEnergy d' = energy
  /\ ((processEnergy d energy timestamp).1 = true ->
      last_onset_time d' = timestamp)
  /\ ((processEnergy d energy timestamp).1 = false ->
      onsetTimes d' = onsetTimes d /\ getBpm d' = getBpm d).
Proof.
  intros d d'.
  pose proof (detector_run_inv calls _ new_BpmDetector_inv) as Hinv.
  fold d in Hinv. split.
  { rewrite processEnergy_flag. unfold onset_after.
    rewrite <- (inv_last_onset d Hinv).
    unfold d at 1. rewrite detector_run_lastEnergy. reflexivity. }
  split; [apply processEnergy_lastEnergy |]. split.
  - intros Hflag.
    destruct (processEnergy_onset d energy timestamp Hflag) as (E1 & _).
    unfold last_onset_time, d'. rewrite E1, append_onset_last; [reflexivity |].
    unfold ONSET_HISTORY_SIZE. lia.
  - intros Hflag. unfold d'. rewrite processEnergy_quiet by exact Hflag.
    split; reflexivity.
Qed.

Lemma processEnergy_onset_iff_witness :
  let d := detector_run [ProcessEnergy 1 1000; ProcessEnergy 0 1100]
             new_BpmDetector in
  last_onset_time (processEnergy d 1 1500).2 = 1500
  /\ onsetTimes (processEnergy d 1 1300).2 = onsetTimes d.
Proof.
  intros d.
  pose proof (processEnergy_onset_iff
                [ProcessEnergy 1 1000; ProcessEnergy 0 1100] 1 1500) as H1.
  pose proof (processEnergy_onset_iff
                [ProcessEnergy 1 1000; ProcessEnergy 0 1100] 1 1300) as H2.
  split.
  - apply H1. reflexivity.
  - apply H2. reflexivity.
Defined.

(** C4, as the specification words it, fails: 300 ms after an onset at
    1000 ms the energy rises by 1, so that at least the minimum interval has
    elapsed, and no onset is declared. *)
Lemma onset_at_minimum_interval_not_declared :
  let d := detector_run [ProcessEnergy 1 1000; ProcessEnergy 0 1100]
             new_BpmDetector in
  (processEnergy new_BpmDetector 1 1000).1 = true
  /\ lastOnsetTime d = 1000
  /\ onset_at_least d 1 1300
  /\ (processEnergy d 1 1300).1 = false
  /\ ~ ((processEnergy d 1 1300).1 = true <-> onset_at_least d 1 1300).
Proof.
  intros d.
  assert (Hspec : onset_at_least d 1 1300)
    by (split; [reflexivity | discriminate]).
  assert (Hcode : (processEnergy d 1 1300).1 = false) by reflexivity.
  repeat split; try reflexivity; try apply Hspec; try exact Hcode.
  intros [_ H]. specialize (H Hspec). rewrite Hcode in H. discriminate.
Qed.

(** C8.  [reset] gives the state of a new detector: empty history, last
    energy and last onset time 0, BPM 120.  [disconnect] resets the
    detector of the analyzer, a later [connect] leaves it so, and from
    there every run is the run of a new detector: the first onset after a
    reset finds no interval and reports 120. *)
Theorem reset_clears_detector
    (d : BpmDetector) (a : AudioAnalyzer) (rate : Q)
    (calls : list DetectorCall) (energy timestamp : Q) :
  onsetTimes (reset d) = []
  /\ lastEnergy (reset d) = 0
  /\ lastOnsetTime (reset d) = 0
  /\ getBpm (reset d) = 120
  /\ reset d = new_BpmDetector
  /\ bpmDetector (disconnect a) = new_BpmDetector
  /\ isConnected (disconnect a) = false
  /\ bpmDetector (connect rate (disconnect a)) = new_BpmDetector
  /\ detector_run calls (reset d) = detector_run calls new_BpmDetector
  /\ inter_onset_intervals
       (onsetTimes (processEnergy (reset d) energy timestamp).2) = []
  /\ getBpm (processEnergy (reset d) energy timestamp).2 = 120.
Proof.
  repeat split; try reflexivity.
  - apply inter_onset_intervals_short.
    change (reset d) with new_BpmDetector.
    destruct ((processEnergy new_BpmDetector energy timestamp).1) eqn:Hflag.
    + destruct (processEnergy_onset _ energy timestamp Hflag) as (E1 & _).
      rewrite E1. simpl. lia.
    + rewrite processEnergy_quiet by exact Hflag. simpl. lia.
  - change (reset d) with new_BpmDetector.
    destruct ((processEnergy new_BpmDetector energy timestamp).1) eqn:Hflag.
    + destruct (processEnergy_onset _ energy timestamp Hflag)
        as (E1 & _ & _ & Hnone & _).
      unfold getBpm. rewrite Hnone; [reflexivity |].
      rewrite E1. reflexivity.
    + rewrite processEnergy_quiet by exact Hflag. reflexivity.
Qed.

(** ** The analyzer without input *)

(** C5.  When the analyzer is not connected (or has no analyser node),
    [getAnalysis] returns an analysis all the same: the timestamp of the
    call, a spectrum frame of 1024 bins that are all zero and energy 0 in
    every band; the analyzer is left as it was. *)
Theorem getAnalysis_silent_energy
    (now : Q) (freq : list Q) (a : AudioAnalyzer) :
  isConnected a = false \/ analyserNode a = None ->
  let analysis := (getAnalysis now freq a).1 in
  timestamp analysis = now
  /\ length (fft analysis) = 1024%nat
  /\ Forall (fun bin => bin = 0) (fft analysis)
  /\ (forall i : nat, (i < 1024)%nat -> fft analysis !! i = Some 0)
  /\ low (energy analysis) = 0 /\ mid (energy analysis) = 0
  /\ high (energy analysis) = 0 /\ total (energy analysis) = 0
  /\ (getAnalysis now freq a).2 = a.
Proof.
  intros H analysis. unfold analysis.
  rewrite getAnalysis_silent by exact H. cbn [fst snd].
  cbn [createSilentAnalysis timestamp fft energy low mid high total].
  split; [reflexivity |]. split; [apply length_replicate |].
  split; [apply Forall_replicate; reflexivity |].
  split; [intros i Hi; apply lookup_replicate_2; exact Hi |].
  repeat split.
Qed.

Lemma getAnalysis_silent_energy_witness :
  let analysis := (getAnalysis 5 [-20; -30] new_AudioAnalyzer).1 in
  timestamp analysis = 5
  /\ length (fft analysis) = 1024%nat
  /\ Forall (fun bin => bin = 0) (fft analysis)
  /\ (forall i : nat, (i < 1024)%nat -> fft analysis !! i = Some 0)
  /\ low (energy analysis) = 0 /\ mid (energy analysis) = 0
  /\ high (energy analysis) = 0 /\ total (energy analysis) = 0
  /\ (getAnalysis 5 [-20; -30] new_AudioAnalyzer).2 = new_AudioAnalyzer.
Proof.
  apply (getAnalysis_silent_energy 5 [-20; -30] new_AudioAnalyzer).
  left. reflexivity.
Defined.

(** C10.  When the analyzer is not connected, the analysis [getAnalysis]
    returns has BPM 120 and beat false, whatever the detector of the
    analyzer holds, and a spectrum of 1024 bins. *)
Theorem getAnalysis_silent_bpm
    (now : Q) (freq : list Q) (a : AudioAnalyzer) :
  isConnected a = false \/ analyserNode a = None ->
  let analysis := (getAnalysis now freq a).1 in
  bpm analysis = 120 /\ beat analysis = false
  /\ length (fft analysis) = 1024%nat.
Proof.
  intros H analysis. unfold analysis.
  rewrite getAnalysis_silent by exact H. cbn [fst].
  repeat split.
Qed.

Lemma getAnalysis_silent_bpm_witness :
  let a := {| audioContext := Some {| sampleRate := 48000 |};
              analyserNode := None;
              fftData := Float32Array BIN_COUNT;
              normalizedFft := Float32Array BIN_COUNT;
              bpmDetector := {| onsetTimes := [1000; 1400];
                                lastEnergy := 1;
                                lastOnsetTime := 1400;
                                currentBpm := 150 |};
              isConnected := false |} in
  let analysis := (getAnalysis 1500 [-20; -30] a).1 in
  bpm analysis = 120 /\ beat analysis = false
  /\ length (fft analysis) = 1024%nat.
Proof.
  intros a. apply (getAnalysis_silent_bpm 1500 [-20; -30] a).
  left. reflexivity.
Defined.

(** ** The normalized spectrum *)

(** C6, as the code has it.  For a connected analyzer with its two buffers
    of 1024 bins and any frequency data, the spectrum [getAnalysis] returns
    has 1024 bins.  The bin at each position of the data is the float32
    nearest to the dB value clamped to [-100, 0] and mapped affinely onto
    [0,1], the buffer being a [Float32Array]: it is within [2 ^ -25] of
    that number, and every bin lies in [0,1]. *)
Theorem getAnalysis_normalized_spectrum
    (now : Q) (freq : list Q) (a : AudioAnalyzer) :
  buffers_ok a -> isConnected a = true -> is_Some (analyserNode a) ->
  let spectrum := fft (getAnalysis now freq a).1 in
  length spectrum = 1024%nat
  /\ (forall (i : nat) (db : Q),
        (i < 1024)%nat -> freq !! i = Some db ->
        let exact := affine (-100) 0 (clamp (-100) 0 db) in
        exists bin : Q,
          spectrum !! i = Some bin
          /\ bin = fround exact
          /\ exact - (1 # 33554432) <= bin
          /\ bin <= exact + (1 # 33554432))
  /\ Forall unit_interval spectrum.
Proof.
  intros [Hfft Hnorm] Hc Hn spectrum. unfold spectrum.
  rewrite getAnalysis_fft by assumption.
  split; [rewrite normalize_loop_length; exact Hnorm |]. split.
  - intros i db Hi Hdb. cbv zeta.
    set (exact := affine (-100) 0 (clamp (-100) 0 db)).
    assert (Eexact : normalize_db db == exact) by apply normalize_db_clamp.
    exists (fround (normalize_db db)).
    split; [| split; [apply fround_comp, Eexact |]].
    + apply (normalize_loop_at _ 0 i).
      * apply getFloatFrequencyData_lookup; [| exact Hdb].
        rewrite Hfft. exact Hi.
      * rewrite Hnorm. exact Hi.
    + rewrite (fround_comp _ _ Eexact). apply fround_near.
      unfold exact, affine.
      pose proof (clamp_range (-100) 0 db) as H.
      split.
      * apply Qle_shift_div_l; lra.
      * apply Qle_shift_div_r; lra.
  - apply normalize_loop_unit.
    rewrite getFloatFrequencyData_length, Hfft, Hnorm. reflexivity.
Qed.

Lemma getAnalysis_normalized_spectrum_witness :
  let a := connect 44100 new_AudioAnalyzer in
  let spectrum := fft (getAnalysis 0 [-50; 10; -200] a).1 in
  length spectrum = 1024%nat
  /\ (exists bin : Q,
        spectrum !! 1%nat = Some bin
        /\ bin = fround (affine (-100) 0 (clamp (-100) 0 10)))
  /\ Forall unit_interval spectrum.
Proof.
  intros a.
  assert (Hbuf : buffers_ok a) by (split; reflexivity).
  assert (Hnode : is_Some (analyserNode a)) by (eexists; reflexivity).
  destruct (getAnalysis_normalized_spectrum 0 [-50; 10; -200] a
              Hbuf eq_refl Hnode) as (Hlen & Hbin & Hunit).
  split; [exact Hlen |]. split; [| exact Hunit].
  destruct (Hbin 1%nat 10) as (bin & H1 & H2 & _); [lia | reflexivity |].
  exists bin. split; [exact H1 | exact H2].
Defined.

(** C6, as the specification words it, fails: the bin stored for -60 dB is
    the float32 13421773 / 33554432 (0.4000000059604645), not the 2/5 the
    clamped value maps to. *)
Lemma stored_bin_is_a_float32 :
  let a := connect 44100 new_AudioAnalyzer in
  let spectrum := fft (getAnalysis 0 [-60] a).1 in
  spectrum !! 0%nat = Some (13421773 # 33554432)
  /\ affine (-100) 0 (clamp (-100) 0 (-60)) == 2 # 5
  /\ ~ (13421773 # 33554432 == affine (-100) 0 (clamp (-100) 0 (-60))).
Proof.
  intros a.
  assert (Hnode : is_Some (analyserNode a)) by (eexists; reflexivity).
  split; [| split; [reflexivity | discriminate]].
  rewrite (getAnalysis_fft 0 [-60] a eq_refl Hnode).
  assert (E : fround (normalize_db (-60)) = 13421773 # 33554432)
    by (vm_compute; reflexivity).
  rewrite <- E.
  apply (normalize_loop_at _ 0 0).
  - apply getFloatFrequencyData_lookup; [| reflexivity].
    change (length (fftData a)) with (length (Float32Array BIN_COUNT)).
    unfold Float32Array. rewrite length_replicate. unfold BIN_COUNT. lia.
  - change (length (normalizedFft a)) with (length (Float32Array BIN_COUNT)).
    unfold Float32Array. rewrite length_replicate. unfold BIN_COUNT. lia.
Qed.

(** * Further properties of the code *)

(** ** Frequencies and bins *)

Lemma bin_position (frequency fftSize sampleRate : Q) :
  0 < fftSize -> 0 < sampleRate ->
  frequency / (sampleRate / fftSize) == frequency * fftSize / sampleRate.
Proof. intros Hf Hs. field. split; lra. Qed.

Lemma round_nearest (x : Q) :
  inject_Z (Math.round x) - (1 # 2) <= x
  /\ x < inject_Z (Math.round x) + (1 # 2).
Proof.
  unfold Math.round.
  pose proof (Qfloor_le (x + (1 # 2))) as Hlo.
  pose proof (Qlt_floor (x + (1 # 2))) as Hhi.
  rewrite inject_Z_plus in Hhi. change (inject_Z 1) with 1 in Hhi.
  split; lra.
Qed.

Lemma round_le (x y : Q) : x <= y -> (Math.round x <= Math.round y)%Z.
Proof. intros H. unfold Math.round. apply Qfloor_resp_le. lra. Qed.

Lemma round_lt (x y : Q) : x + 1 <= y -> (Math.round x < Math.round y)%Z.
Proof.
  intros H. destruct (round_nearest x) as [Hx _].
  destruct (round_nearest y) as [_ Hy].
  rewrite Zlt_Qlt. lra.
Qed.

Lemma round_below (x : Q) (n : Z) :
  x + (1 # 2) < inject_Z n -> (Math.round x < n)%Z.
Proof.
  intros H. destruct (round_nearest x) as [Hx _].
  rewrite Zlt_Qlt. lra.
Qed.

Lemma round_nonneg (x : Q) : 0 <= x -> (0 <= Math.round x)%Z.
Proof.
  intros H. destruct (round_nearest x) as [_ Hx].
  assert (Hgap : inject_Z 0 < inject_Z (Math.round x) + 1).
  { change (inject_Z 0) with 0. lra. }
  change 1 with (inject_Z 1) in Hgap. rewrite <- inject_Z_plus in Hgap.
  rewrite <- Zlt_Qlt in Hgap. lia.
Qed.

Lemma bin_width_pos (fftSize sampleRate : Q) :
  0 < fftSize -> 0 < sampleRate -> 0 < sampleRate / fftSize.
Proof.
  intros Hf Hs. apply Qlt_shift_div_l; [exact Hf | lra].
Qed.

Lemma frequencyToBin_le (f1 f2 fftSize sampleRate : Q) :
  0 < fftSize -> 0 < sampleRate -> f1 <= f2 ->
  (frequencyToBin f1 fftSize sampleRate
   <= frequencyToBin f2 fftSize sampleRate)%Z.
Proof.
  intros Hf Hs Hle. unfold frequencyToBin. apply round_le.
  pose proof (bin_width_pos fftSize sampleRate Hf Hs) as Hw.
  set (w := sampleRate / fftSize) in *.
  apply Qle_shift_div_l; [exact Hw |].
  assert (E : f1 / w * w == f1) by (field; intros Hz; lra).
  lra.
Qed.

Lemma frequencyToBin_nonneg (frequency fftSize sampleRate : Q) :
  0 < fftSize -> 0 < sampleRate -> 0 <= frequency ->
  (0 <= frequencyToBin frequency fftSize sampleRate)%Z.
Proof.
  intros Hf Hs H0. apply round_nonneg.
  rewrite (bin_position frequency fftSize sampleRate Hf Hs).
  apply Qle_shift_div_l; [exact Hs |].
  assert (0 <= frequency * fftSize) by (apply Qmult_le_0_compat; lra). lra.
Qed.



(** ** The three bands *)

Lemma calculateEnergyBands_ranges (fftData : list Q) (fftSize sampleRate : Q) :
  let r := band_ranges (length fftData) fftSize sampleRate in
  let e := calculateEnergyBands fftData fftSize sampleRate in
  low e = calculateBandEnergy fftData (lowStart r) (lowEnd r)
  /\ mid e = calculateBandEnergy fftData (midStart r) (midEnd r)
  /\ high e = calculateBandEnergy fftData (highStart r) (highEnd r).
Proof. repeat split. Qed.

Lemma scan_reads_range (fftData : list Q) (startBin endBin i : Z) :
  i ∈ reads (calculateBandEnergy_scan fftData startBin endBin) ->
  (startBin <= i < endBin)%Z /\ (0 <= i < Z.of_nat (length fftData))%Z.
Proof.
  destruct (decide (range_rejected fftData startBin endBin)) as [R | R].
  - rewrite scan_rejected by exact R. simpl. intros H.
    apply elem_of_nil in H. contradiction.
  - rewrite scan_accepted by exact R. simpl. intros H.
    apply elem_of_seqZ in H. unfold range_rejected in R. lia.
Qed.

(** X2.  The three bands of [calculateEnergyBands] never share a bin.  The
    bands are the energies of the ranges of [band_ranges]; for a positive
    FFT size and sample rate these ranges are in order, low ends
    where mid starts and mid ends where high starts, the high range ends
    inside the array, and every array position read for low lies below
    every position read for mid, which lies below every position read for
    high. *)
Theorem bands_do_not_overlap
    (fftData : list Q) (fftSize sampleRate : Q) :
  0 < fftSize -> 0 < sampleRate ->
  let r := band_ranges (length fftData) fftSize sampleRate in
  let lowReads :=
    reads (calculateBandEnergy_scan fftData (lowStart r) (lowEnd r)) in
  let midReads :=
    reads (calculateBandEnergy_scan fftData (midStart r) (midEnd r)) in
  let highReads :=
    reads (calculateBandEnergy_scan fftData (highStart r) (highEnd r)) in
  let e := calculateEnergyBands fftData fftSize sampleRate in
  (low e = calculateBandEnergy fftData (lowStart r) (lowEnd r)
   /\ mid e = calculateBandEnergy fftData (midStart r) (midEnd r)
   /\ high e = calculateBandEnergy fftData (highStart r) (highEnd r))
  /\ (0 <= lowStart r <= lowEnd r)%Z
  /\ lowEnd r = midStart r
  /\ (midStart r <= midEnd r)%Z
  /\ midEnd r = highStart r
  /\ (highEnd r <= Z.of_nat (length fftData))%Z
  /\ (forall i j : Z, i ∈ lowReads -> j ∈ midReads -> (i < j)%Z)
  /\ (forall i j : Z, i ∈ midReads -> j ∈ highReads -> (i < j)%Z)
  /\ (forall i j : Z, i ∈ lowReads -> j ∈ highReads -> (i < j)%Z).
Proof.
  intros Hf Hs r lowReads midReads highReads e.
  split; [apply calculateEnergyBands_ranges |].
  assert (H0 : (0 <= lowStart r)%Z).
  { apply frequencyToBin_nonneg; [exact Hf | exact Hs | discriminate]. }
  assert (H1 : (lowStart r <= lowEnd r)%Z).
  { apply frequencyToBin_le; [exact Hf | exact Hs | discriminate]. }
  assert (H2 : (midStart r <= midEnd r)%Z).
  { apply frequencyToBin_le; [exact Hf | exact Hs | discriminate]. }
  assert (H3 : (highEnd r <= Z.of_nat (length fftData))%Z)
    by apply Z.le_min_r.
  assert (E1 : lowEnd r = midStart r) by reflexivity.
  assert (E2 : midEnd r = highStart r) by reflexivity.
  repeat split; try assumption.
  - intros i j Hi Hj. apply scan_reads_range in Hi, Hj. lia.
  - intros i j Hi Hj. apply scan_reads_range in Hi, Hj. lia.
  - intros i j Hi Hj. apply scan_reads_range in Hi, Hj. lia.
Qed.

Lemma bands_do_not_overlap_witness :
  let r := band_ranges 4 16 64000 in
  (0 <= lowStart r <= lowEnd r)%Z
  /\ lowEnd r = midStart r
  /\ (midStart r <= midEnd r)%Z
  /\ midEnd r = highStart r
  /\ (highEnd r <= 4)%Z.
Proof.
  intros r.
  destruct (bands_do_not_overlap [0.5; 1; 0; 0.25] 16 64000
              eq_refl eq_refl) as (_ & H1 & H2 & H3 & H4 & H5 & _).
  repeat split; try apply H1; assumption.
Defined.

Lemma bin_gap (f1 f2 fftSize sampleRate : Q) :
  0 < fftSize -> 0 < sampleRate -> sampleRate <= (f2 - f1) * fftSize ->
  (frequencyToBin f1 fftSize sampleRate
   < frequencyToBin f2 fftSize sampleRate)%Z.
Proof.
  intros Hf Hs Hgap. unfold frequencyToBin. apply round_lt.
  rewrite !bin_position by assumption.
  assert (H1 : 1 <= (f2 - f1) * fftSize / sampleRate).
  { apply Qle_shift_div_l; [exact Hs | lra]. }
  assert (E : (f2 - f1) * fftSize / sampleRate
              == f2 * fftSize / sampleRate - f1 * fftSize / sampleRate).
  { field. intros Hz. lra. }
  lra.
Qed.

Lemma bin_below (frequency fftSize sampleRate : Q) (n : Z) :
  0 < fftSize -> 0 < sampleRate ->
  frequency * fftSize < (inject_Z n - (1 # 2)) * sampleRate ->
  (frequencyToBin frequency fftSize sampleRate < n)%Z.
Proof.
  intros Hf Hs Hlt. unfold frequencyToBin. apply round_below.
  rewrite bin_position by assumption.
  assert (H1 : frequency * fftSize / sampleRate < inject_Z n - (1 # 2)).
  { apply Qlt_shift_div_r; assumption. }
  lra.
Qed.

(** X3.  With the analyzer's 1024 bins and FFT size 2048, for every sample
    rate from 8000 Hz to 192000 Hz the low and the mid range are not empty
    and lie inside the array, so that low and mid are the means of their
    bins; from 8004 Hz on the same holds of high. *)
Theorem bands_are_means_at_audio_rates
    (fftData : list Q) (sampleRate : Q) :
  length fftData = BIN_COUNT ->
  8000 <= sampleRate <= 192000 ->
  let r := band_ranges BIN_COUNT FFT_SIZE sampleRate in
  let e := calculateEnergyBands fftData FFT_SIZE sampleRate in
  (0 <= lowStart r < lowEnd r)%Z
  /\ (midStart r < midEnd r <= 1024)%Z
  /\ low e == mean (bins_in_range fftData (lowStart r) (lowEnd r))
  /\ mid e == mean (bins_in_range fftData (midStart r) (midEnd r))
  /\ (8004 <= sampleRate ->
      (highStart r < highEnd r <= 1024)%Z
      /\ high e == mean (bins_in_range fftData (highStart r) (highEnd r))).
Proof.
  intros Hlen [Hmin Hmax] r e.
  assert (Hf : 0 < FFT_SIZE) by reflexivity.
  assert (Hs : 0 < sampleRate) by lra.
  destruct (calculateEnergyBands_ranges fftData FFT_SIZE sampleRate)
    as (Elow & Emid & Ehigh).
  rewrite Hlen in Elow, Emid, Ehigh. fold r in Elow, Emid, Ehigh.
  fold e in Elow, Emid, Ehigh.
  assert (H0 : (0 <= lowStart r)%Z).
  { apply frequencyToBin_nonneg; [exact Hf | exact Hs | discriminate]. }
  assert (H1 : (lowStart r < lowEnd r)%Z).
  { apply bin_gap; [exact Hf | exact Hs |].
    unfold LOW_FREQ_MIN, LOW_FREQ_MAX, FFT_SIZE. lra. }
  assert (H2 : (midStart r < midEnd r)%Z).
  { apply bin_gap; [exact Hf | exact Hs |].
    unfold MID_FREQ_MIN, MID_FREQ_MAX, FFT_SIZE. lra. }
  assert (H3 : (midEnd r < 1025)%Z).
  { apply bin_below; [exact Hf | exact Hs |].
    unfold MID_FREQ_MAX, FFT_SIZE. change (inject_Z 1025) with 1025. lra. }
  assert (E1 : lowEnd r = midStart r) by reflexivity.
  split; [lia |]. split; [lia |]. split; [| split].
  - rewrite Elow. apply band_energy_mean. unfold range_rejected.
    rewrite Hlen. unfold BIN_COUNT. lia.
  - rewrite Emid. apply band_energy_mean. unfold range_rejected.
    rewrite Hlen. unfold BIN_COUNT. lia.
  - intros Hhigh.
    assert (H4 : (highStart r < 1024)%Z).
    { apply bin_below; [exact Hf | exact Hs |].
      unfold HIGH_FREQ_MIN, FFT_SIZE. change (inject_Z 1024) with 1024. lra. }
    assert (H5 : (highStart r
                  < frequencyToBin HIGH_FREQ_MAX FFT_SIZE sampleRate)%Z).
    { apply bin_gap; [exact Hf | exact Hs |].
      unfold HIGH_FREQ_MIN, HIGH_FREQ_MAX, FFT_SIZE. lra. }
    assert (H6 : (highStart r < highEnd r <= 1024)%Z).
    { unfold r at 2 3, band_ranges. cbn [highEnd]. unfold BIN_COUNT. lia. }
    assert (E2 : midEnd r = highStart r) by reflexivity.
    split; [exact H6 |].
    rewrite Ehigh. apply band_energy_mean. unfold range_rejected.
    rewrite Hlen. unfold BIN_COUNT. lia.
Qed.

Lemma bands_are_means_at_audio_rates_witness :
  let fftData := Float32Array BIN_COUNT in
  let r := band_ranges BIN_COUNT FFT_SIZE 48000 in
  let e := calculateEnergyBands fftData FFT_SIZE 48000 in
  (r = {| lowStart := 1; lowEnd := 11; midStart := 11; midEnd := 171;
          highStart := 171; highEnd := 853 |})
  /\ low e == mean (bins_in_range fftData (lowStart r) (lowEnd r))
  /\ mid e == mean (bins_in_range fftData (midStart r) (midEnd r))
  /\ high e == mean (bins_in_range fftData (highStart r) (highEnd r)).
Proof.
  intros fftData r e.
  assert (Hlen : length fftData = BIN_COUNT) by reflexivity.
  assert (Hrate : 8000 <= 48000 <= 192000) by (split; discriminate).
  destruct (bands_are_means_at_audio_rates fftData 48000 Hlen Hrate)
    as (_ & _ & Hlow & Hmid & Hhigh).
  split; [reflexivity |]. split; [exact Hlow |]. split; [exact Hmid |].
  apply Hhigh. discriminate.
Defined.

(** ** Band energy as a mean *)

Lemma Qsum_le (l1 l2 : list Q) :
  Forall2 Qle l1 l2 -> Qsum l1 <= Qsum l2.
Proof.
  induction 1 as [| x y l1 l2 Hxy _ IH].
  - apply Qle_refl.
  - change (x + Qsum l1 <= y + Qsum l2). lra.
Qed.

Lemma mean_le (l1 l2 : list Q) :
  l1 <> [] -> Forall2 Qle l1 l2 -> mean l1 <= mean l2.
Proof.
  intros Hne Hall. unfold mean.
  rewrite <- (Forall2_length _ _ _ Hall).
  pose proof (length_pos_Q l1 Hne) as Hpos.
  pose proof (Qsum_le l1 l2 Hall) as Hsum.
  apply Qle_shift_div_l; [exact Hpos |].
  set (n := inject_Z (Z.of_nat (length l1))) in *.
  assert (E : Qsum l1 / n * n == Qsum l1) by (field; intros Hz; lra).
  lra.
Qed.

Lemma mean_flat (level : Q) (l : list Q) :
  l <> [] -> Forall (fun x => x == level) l -> mean l == level.
Proof.
  intros Hne Hall.
  assert (Hboth : Forall (fun x => level <= x <= level) l).
  { eapply Forall_impl; [exact Hall |]. intros x E.
    change (x == level) in E. lra. }
  apply Qle_antisym; apply (mean_bounds level level l Hne Hboth).
Qed.

Lemma bins_in_range_nonempty (fftData : list Q) (startBin endBin : Z) :
  (0 <= startBin < endBin)%Z -> (endBin <= Z.of_nat (length fftData))%Z ->
  bins_in_range fftData startBin endBin <> [].
Proof.
  intros H1 H2 Hnil. apply (f_equal length) in Hnil.
  rewrite bins_in_range_length in Hnil by lia. simpl in Hnil. lia.
Qed.

(** X4.  The energy of a range inside the array lies between any two
    bounds of the bins of that range: it is never below the smallest nor
    above the largest of them, and a flat range has the energy of its
    level. *)
Theorem calculateBandEnergy_between
    (fftData : list Q) (startBin endBin : Z) (lo hi : Q) :
  (0 <= startBin < endBin)%Z -> (endBin <= Z.of_nat (length fftData))%Z ->
  Forall (fun bin => lo <= bin <= hi)
         (bins_in_range fftData startBin endBin) ->
  lo <= calculateBandEnergy fftData startBin endBin <= hi.
Proof.
  intros H1 H2 Hall.
  rewrite band_energy_mean by (unfold range_rejected; lia).
  apply mean_bounds; [| exact Hall].
  apply bins_in_range_nonempty; assumption.
Qed.

Lemma calculateBandEnergy_between_witness :
  0.25 <= calculateBandEnergy [0; 0.25; 0.75; 0.5; 3] 1 4 <= 0.75.
Proof.
  apply calculateBandEnergy_between; [lia | simpl; lia |].
  repeat constructor; discriminate.
Defined.

(** X5.  The energy of a range grows with its bins and depends on nothing
    else: of two arrays that hold the range, the one whose bins of the
    range are at least those of the other has at least its energy, and
    arrays that agree on the range have the same energy. *)
Theorem calculateBandEnergy_monotone
    (fftData fftData' : list Q) (startBin endBin : Z) :
  (0 <= startBin < endBin)%Z ->
  (endBin <= Z.of_nat (length fftData))%Z ->
  (endBin <= Z.of_nat (length fftData'))%Z ->
  (Forall2 Qle (bins_in_range fftData startBin endBin)
               (bins_in_range fftData' startBin endBin) ->
   calculateBandEnergy fftData startBin endBin
   <= calculateBandEnergy fftData' startBin endBin)
  /\ (Forall2 Qeq (bins_in_range fftData startBin endBin)
                  (bins_in_range fftData' startBin endBin) ->
      calculateBandEnergy fftData startBin endBin
      == calculateBandEnergy fftData' startBin endBin).
Proof.
  intros H1 H2 H3.
  assert (Hmono : forall f g : list Q,
    (endBin <= Z.of_nat (length f))%Z -> (endBin <= Z.of_nat (length g))%Z ->
    Forall2 Qle (bins_in_range f startBin endBin)
                (bins_in_range g startBin endBin) ->
    calculateBandEnergy f startBin endBin
    <= calculateBandEnergy g startBin endBin).
  { intros f g Hf Hg Hall.
    rewrite !band_energy_mean by (unfold range_rejected; lia).
    apply mean_le; [| exact Hall].
    apply bins_in_range_nonempty; assumption. }
  split.
  - apply Hmono; assumption.
  - intros Hall. apply Qle_antisym; apply Hmono; try assumption.
    + eapply Forall2_impl; [exact Hall |]. intros x y E. lra.
    + apply Forall2_flip. eapply Forall2_impl; [exact Hall |].
      intros x y E. change (y <= x). lra.
Qed.

Lemma calculateBandEnergy_monotone_witness :
  calculateBandEnergy [9; 0.25; 0.5] 1 3
  <= calculateBandEnergy [0; 0.5; 0.5; 7] 1 3.
Proof.
  apply (calculateBandEnergy_monotone [9; 0.25; 0.5] [0; 0.5; 0.5; 7] 1 3);
    [lia | simpl; lia | simpl; lia |].
  repeat constructor; discriminate.
Defined.

(** X6.  For a spectrum in [0,1] the clamp of [total] is never active:
    [total] is exactly [0.5 * low + 0.3 * mid + 0.2 * high], a weighted
    mean that lies between the smallest and the largest of the three
    bands. *)
Theorem total_is_weighted_mean
    (fftData : list Q) (fftSize sampleRate : Q) :
  0 < fftSize -> 0 < sampleRate ->
  Forall unit_interval fftData ->
  let e := calculateEnergyBands fftData fftSize sampleRate in
  total e == 0.5 * low e + 0.3 * mid e + 0.2 * high e
  /\ (forall m : Q, m <= low e -> m <= mid e -> m <= high e -> m <= total e)
  /\ (forall m : Q, low e <= m -> mid e <= m -> high e <= m -> total e <= m).
Proof.
  intros _ _ Hall e.
  destruct (energy_bands_unit fftData fftSize sampleRate Hall)
    as ([L0 L1] & [M0 M1] & [H0 H1] & _).
  fold e in L0, L1, M0, M1, H0, H1.
  assert (E : total e == 0.5 * low e + 0.3 * mid e + 0.2 * high e).
  { unfold e. rewrite energy_total_clamp. fold e. apply clamp_id. lra. }
  split; [exact E |]. split; intros m Hl Hm Hh; rewrite E; lra.
Qed.

Lemma total_is_weighted_mean_witness :
  let e := calculateEnergyBands [0.5; 1; 0; 0.25] 16 64000 in
  total e == 0.5 * low e + 0.3 * mid e + 0.2 * high e.
Proof.
  apply total_is_weighted_mean; [reflexivity | reflexivity |].
  repeat constructor; discriminate.
Defined.

(** ** Normalization *)

Lemma affine_db (x : Q) : affine (-100) 0 x == (x + 100) * (1 # 100).
Proof. unfold affine. field. Qed.

Lemma normalize_db_floor (db : Q) : db <= -100 -> normalize_db db == 0.
Proof.
  intros H. rewrite normalize_db_clamp, affine_db. unfold clamp.
  destruct (Qlt_le_dec db (-100)); [lra |].
  destruct (Qlt_le_dec 0 db); lra.
Qed.

(** X10.  The bin [normalizeFftData] stores for a dB value, the float32 of
    the normalized value, is monotone (a larger dB value never gives a
    smaller bin) and saturates: everything at or below -100 dB gives 0,
    everything at or above 0 dB gives 1, and in between the bin is within
    [2 ^ -25] of [(db + 100) / 100]. *)
Theorem normalize_db_monotone (db db' : Q) :
  let bin := fround (normalize_db db) in
  (db <= db' -> bin <= fround (normalize_db db'))
  /\ (db <= -100 -> bin == 0)
  /\ (0 <= db -> bin == 1)
  /\ (-100 <= db <= 0 ->
      (db + 100) / 100 - (1 # 33554432) <= bin
      /\ bin <= (db + 100) / 100 + (1 # 33554432)).
Proof.
  intros bin. unfold bin.
  pose proof (normalize_db_unit db) as [H0 H1].
  split; [| split; [| split]].
  - intros Hle. apply fround_le; [exact H0 |].
    rewrite !normalize_db_clamp, !affine_db. unfold clamp.
    repeat match goal with
           | |- context [Qlt_le_dec ?a ?b] => destruct (Qlt_le_dec a b)
           end; lra.
  - intros Hle. rewrite (fround_zero (normalize_db db)); [reflexivity |].
    apply normalize_db_floor, Hle.
  - intros Hge. rewrite (fround_comp (normalize_db db) 1); [reflexivity |].
    rewrite normalize_db_clamp, affine_db. unfold clamp.
    destruct (Qlt_le_dec db (-100)); [lra |].
    destruct (Qlt_le_dec 0 db); lra.
  - intros [Hlo Hhi].
    assert (E : normalize_db db == (db + 100) / 100).
    { rewrite normalize_db_clamp, affine_db. unfold clamp.
      destruct (Qlt_le_dec db (-100)); [lra |].
      destruct (Qlt_le_dec 0 db);
        unfold Qdiv; change (/ 100) with (1 # 100); lra. }
    rewrite <- E. apply fround_near. split; assumption.
Qed.

Lemma normalize_db_monotone_witness :
  fround (normalize_db (-60)) <= fround (normalize_db (-20))
  /\ fround (normalize_db (-130)) == 0
  /\ fround (normalize_db 12) == 1
  /\ ((-25 + 100) / 100 - (1 # 33554432) <= fround (normalize_db (-25))
      /\ fround (normalize_db (-25)) <= (-25 + 100) / 100 + (1 # 33554432)).
Proof.
  destruct (normalize_db_monotone (-60) (-20)) as (H1 & _).
  destruct (normalize_db_monotone (-130) 0) as (_ & H2 & _).
  destruct (normalize_db_monotone 12 0) as (_ & _ & H3 & _).
  destruct (normalize_db_monotone (-25) 0) as (_ & _ & _ & H4).
  split; [apply H1; discriminate |]. split; [apply H2; discriminate |].
  split; [apply H3; discriminate | apply H4; split; discriminate].
Defined.

(** ** Analyses *)

Lemma band_energy_zero (fftData : list Q) (startBin endBin : Z) :
  Forall (fun bin => bin == 0) fftData ->
  calculateBandEnergy fftData startBin endBin == 0.
Proof.
  intros Hall.
  destruct (decide (range_rejected fftData startBin endBin)) as [R | R].
  - rewrite band_energy_rejected by exact R. reflexivity.
  - rewrite band_energy_mean by exact R.
    apply mean_flat.
    + intros Hnil. apply bins_in_range_nil in Hnil. contradiction.
    + apply bins_in_range_Forall, Hall.
Qed.

Lemma energy_bands_zero (fftData : list Q) (fftSize sampleRate : Q) :
  Forall (fun bin => bin == 0) fftData ->
  let e := calculateEnergyBands fftData fftSize sampleRate in
  low e == 0 /\ mid e == 0 /\ high e == 0 /\ total e == 0.
Proof.
  intros Hall e.
  destruct (calculateEnergyBands_ranges fftData fftSize sampleRate)
    as (E1 & E2 & E3). fold e in E1, E2, E3.
  assert (Elow : low e == 0) by (rewrite E1; apply band_energy_zero, Hall).
  assert (Emid : mid e == 0) by (rewrite E2; apply band_energy_zero, Hall).
  assert (Ehigh : high e == 0) by (rewrite E3; apply band_energy_zero, Hall).
  repeat split; try assumption.
  unfold e. rewrite energy_total_clamp. fold e.
  rewrite (clamp_compat 0 1 _ 0); [reflexivity |].
  rewrite Elow, Emid, Ehigh. reflexivity.
Qed.

(** X9.  Every analysis an analyzer returns, connected or not and after any
    sequence of [connect], [disconnect], [getAnalysis] and [dispose] calls
    on a new analyzer, is well formed: 1024 bins in [0,1], the four
    energies in [0,1], BPM in [60,200]. *)
Theorem analysis_well_formed
    (calls : list AnalyzerCall) (now : Q) (freq : list Q) :
  let analysis :=
    (getAnalysis now freq (analyzer_run calls new_AudioAnalyzer)).1 in
  length (fft analysis) = BIN_COUNT
  /\ Forall unit_interval (fft analysis)
  /\ unit_interval (low (energy analysis))
  /\ unit_interval (mid (energy analysis))
  /\ unit_interval (high (energy analysis))
  /\ unit_interval (total (energy analysis))
  /\ MIN_BPM <= bpm analysis <= MAX_BPM.
Proof.
  pose proof (analyzer_run_inv calls _ new_AudioAnalyzer_inv) as Hinv.
  set (a := analyzer_run calls new_AudioAnalyzer) in *.
  destruct Hinv as [[H1 H2] Hd]. intros analysis. unfold analysis.
  destruct (negb (isConnected a) || is_null (analyserNode a)) eqn:G.
  - assert (E : getAnalysis now freq a = (createSilentAnalysis now, a)).
    { unfold getAnalysis. rewrite G. reflexivity. }
    rewrite E. cbn [fst createSilentAnalysis fft energy bpm low mid high
                    total].
    split; [apply length_replicate |].
    split; [apply Forall_replicate; unfold unit_interval; lra |].
    unfold unit_interval, MIN_BPM, MAX_BPM. repeat split; lra.
  - rewrite (getAnalysis_connected now freq a G).
    cbn [fst fft energy bpm].
    assert (Hunit : Forall unit_interval
              (normalize_loop 0 (getFloatFrequencyData freq (fftData a))
                 (normalizedFft a))).
    { apply normalized_spectrum_unit. rewrite H1, H2. reflexivity. }
    split; [rewrite normalize_loop_length; exact H2 |].
    split; [exact Hunit |].
    destruct (energy_bands_unit _ FFT_SIZE (analysis_rate a) Hunit)
      as (Hlow & Hmid & Hhigh & Htotal).
    pose proof (processEnergy_inv (bpmDetector a)
                  (total (calculateEnergyBands
                            (normalize_loop 0
                               (getFloatFrequencyData freq (fftData a))
                               (normalizedFft a))
                            FFT_SIZE (analysis_rate a)))
                  now Hd) as Hd'.
    split; [exact Hlow |]. split; [exact Hmid |]. split; [exact Hhigh |].
    split; [exact Htotal |]. exact (inv_bpm _ Hd').
Qed.

(** X8.  The fields of one analysis belong together.  Whether the analyzer
    is connected or not, the energies of the analysis are the band energies
    of its own spectrum at FFT size 2048 and the analyzer's sample rate.
    When it is connected, the beat flag and the BPM are those of the
    analyzer's detector fed with the total energy and the timestamp of the
    analysis, the detector is left in the state after that call, and the
    analyzer's buffer holds the spectrum. *)
Theorem analysis_fields_consistent
    (now : Q) (freq : list Q) (a : AudioAnalyzer) :
  let analysis := (getAnalysis now freq a).1 in
  let a' := (getAnalysis now freq a).2 in
  let e := calculateEnergyBands (fft analysis) FFT_SIZE (analysis_rate a) in
  let tick :=
    processEnergy (bpmDetector a) (total (energy analysis)) now in
  timestamp analysis = now
  /\ low (energy analysis) == low e
  /\ mid (energy analysis) == mid e
  /\ high (energy analysis) == high e
  /\ total (energy analysis) == total e
  /\ (isConnected a = true -> is_Some (analyserNode a) ->
      energy analysis = e
      /\ beat analysis = tick.1
      /\ bpm analysis = getBpm tick.2
      /\ bpmDetector a' = tick.2
      /\ normalizedFft a' = fft analysis).
Proof.
  destruct (negb (isConnected a) || is_null (analyserNode a)) eqn:G.
  - assert (E : getAnalysis now freq a = (createSilentAnalysis now, a)).
    { unfold getAnalysis. rewrite G. reflexivity. }
    rewrite E. cbn [fst snd createSilentAnalysis timestamp fft energy
                    low mid high total].
    assert (Hzero : Forall (fun bin : Q => bin == 0) (Float32Array BIN_COUNT)).
    { apply Forall_replicate. reflexivity. }
    destruct (energy_bands_zero (Float32Array BIN_COUNT) FFT_SIZE
                (analysis_rate a) Hzero) as (E1 & E2 & E3 & E4).
    split; [reflexivity |].
    split; [symmetry; exact E1 |]. split; [symmetry; exact E2 |].
    split; [symmetry; exact E3 |]. split; [symmetry; exact E4 |].
    intros Hc [node Hn]. rewrite Hc, Hn in G. discriminate.
  - rewrite (getAnalysis_connected now freq a G).
    cbn [fst snd timestamp fft energy beat bpm bpmDetector normalizedFft].
    repeat split; reflexivity.
Qed.

Lemma analysis_fields_consistent_witness :
  let a := connect 44100 new_AudioAnalyzer in
  let analysis := (getAnalysis 1000 [-50; 10; -200] a).1 in
  energy analysis = calculateEnergyBands (fft analysis) FFT_SIZE 44100
  /\ beat analysis
     = (processEnergy new_BpmDetector (total (energy analysis)) 1000).1.
Proof.
  intros a.
  assert (Hnode : is_Some (analyserNode a)) by (eexists; reflexivity).
  destruct (analysis_fields_consistent 1000 [-50; 10; -200] a)
    as (_ & _ & _ & _ & _ & H).
  destruct (H eq_refl Hnode) as (H1 & H2 & _).
  split; [exact H1 | exact H2].
Defined.

(** ** The onset history *)

Lemma inter_onset_intervals_snoc (times : list Q) (t : Q) :
  inter_onset_intervals (times ++ [t])
  = inter_onset_intervals times
    ++ match last times with
       | Some t0 => [t - t0]
       | None => []
       end.
Proof.
  induction times as [| t0 [| t1 rest] IH].
  - reflexivity.
  - reflexivity.
  - change (inter_onset_intervals ((t0 :: t1 :: rest) ++ [t]))
      with ((t1 - t0) :: inter_onset_intervals ((t1 :: rest) ++ [t])).
    rewrite IH. reflexivity.
Qed.

Lemma inter_onset_intervals_tail (times : list Q) :
  inter_onset_intervals (tail times) = tail (inter_onset_intervals times).
Proof. destruct times as [| t0 [| t1 rest]]; reflexivity. Qed.

Lemma Forall_tail_list {A : Type} (P : A -> Prop) (l : list A) :
  Forall P l -> Forall P (tail l).
Proof. intros H. destruct H; [constructor | assumption]. Qed.

Lemma append_onset_spaced (capacity : nat) (times : list Q) (t : Q) :
  Forall (fun interval => MIN_ONSET_INTERVAL_MS < interval)
         (inter_onset_intervals times) ->
  MIN_ONSET_INTERVAL_MS < t - default 0 (last times) ->
  Forall (fun interval => MIN_ONSET_INTERVAL_MS < interval)
         (inter_onset_intervals (append_onset capacity times t)).
Proof.
  intros Hall Ht.
  assert (Hpushed : Forall (fun interval => MIN_ONSET_INTERVAL_MS < interval)
                      (inter_onset_intervals (times ++ [t]))).
  { rewrite inter_onset_intervals_snoc. apply Forall_app. split; [exact Hall |].
    destruct (last times) as [t0 |]; [| constructor].
    constructor; [exact Ht | constructor]. }
  unfold append_onset. destruct (_ <? _)%nat; [| exact Hpushed].
  rewrite inter_onset_intervals_tail. apply Forall_tail_list, Hpushed.
Qed.

Lemma Qsum_above (lo : Q) (l : list Q) :
  l <> [] -> Forall (fun x => lo < x) l ->
  lo * inject_Z (Z.of_nat (length l)) < Qsum l.
Proof.
  intros Hne Hall. induction Hall as [| x l Hx Hall IH]; [contradiction |].
  change (Qsum (x :: l)) with (x + Qsum l).
  rewrite length_cons, Nat2Z.inj_succ, <- Z.add_1_r, inject_Z_plus.
  change (inject_Z 1) with 1.
  destruct l as [| y l].
  - change (lo * (0 + 1) < x + 0). lra.
  - assert (Hl : lo * inject_Z (Z.of_nat (length (y :: l))) < Qsum (y :: l))
      by (apply IH; discriminate).
    lra.
Qed.

Lemma mean_above (lo : Q) (l : list Q) :
  l <> [] -> Forall (fun x => lo < x) l -> lo < mean l.
Proof.
  intros Hne Hall. pose proof (Qsum_above lo l Hne Hall) as Hsum.
  unfold mean. apply Qlt_shift_div_l; [apply length_pos_Q, Hne | exact Hsum].
Qed.

Lemma valid_intervals_spaced (times : list Q) :
  Forall (fun interval => MIN_ONSET_INTERVAL_MS < interval)
         (inter_onset_intervals times) ->
  Forall (fun interval => MIN_ONSET_INTERVAL_MS < interval)
         (valid_intervals times).
Proof.
  intros Hall. unfold valid_intervals.
  rewrite List.Forall_forall in *. intros x Hx.
  apply List.filter_In in Hx. apply Hall, Hx.
Qed.

Lemma tempo_below_max (times : list Q) :
  Forall (fun interval => MIN_ONSET_INTERVAL_MS < interval)
         (inter_onset_intervals times) ->
  valid_intervals times <> [] ->
  60000 / mean (valid_intervals times) < MAX_BPM.
Proof.
  intros Hall Hne.
  pose proof (mean_above _ _ Hne (valid_intervals_spaced times Hall)) as Hm.
  unfold MIN_ONSET_INTERVAL_MS in Hm. unfold MAX_BPM.
  apply Qlt_shift_div_r; lra.
Qed.

Lemma new_BpmDetector_history : history_inv new_BpmDetector.
Proof.
  split; simpl.
  - constructor.
  - intros H. contradiction.
  - reflexivity.
Qed.

Lemma processEnergy_history (d : BpmDetector) (energy timestamp : Q) :
  detector_inv d -> history_inv d ->
  history_inv (processEnergy d energy timestamp).2.
Proof.
  intros Hinv [Hspaced Htempo Hmax].
  destruct ((processEnergy d energy timestamp).1) eqn:Hflag.
  - destruct (processEnergy_onset d energy timestamp Hflag)
      as (E1 & _ & _ & Hnone & Hsome).
    apply processEnergy_flag in Hflag. destruct Hflag as [_ Hgap].
    rewrite (inv_last_onset d Hinv) in Hgap.
    assert (Hspaced' :
      Forall (fun interval => MIN_ONSET_INTERVAL_MS < interval)
        (inter_onset_intervals
           (onsetTimes (processEnergy d energy timestamp).2))).
    { rewrite E1. apply append_onset_spaced; assumption. }
    split; [exact Hspaced' | exact Hsome |].
    destruct (decide (valid_intervals
                (onsetTimes (processEnergy d energy timestamp).2) = []))
      as [Hnil | Hne].
    + rewrite (Hnone Hnil). exact Hmax.
    + rewrite (Hsome Hne). apply tempo_below_max; assumption.
  - rewrite processEnergy_quiet by exact Hflag.
    split; simpl; assumption.
Qed.

Lemma detector_run_history (calls : list DetectorCall) :
  forall d : BpmDetector,
    detector_inv d -> history_inv d ->
    detector_inv (detector_run calls d) /\ history_inv (detector_run calls d).
Proof.
  induction calls as [| c calls IH]; intros d Hinv Hhist; simpl.
  - split; assumption.
  - apply IH.
    + apply detector_step_inv, Hinv.
    + destruct c as [energy timestamp |]; simpl.
      * apply processEnergy_history; assumption.
      * apply new_BpmDetector_history.
Qed.

Lemma valid_interval_true (interval : Q) :
  valid_interval interval = true
  <-> MIN_ONSET_INTERVAL_MS <= interval <= MAX_ONSET_INTERVAL_MS.
Proof.
  rewrite <- interval_test_valid, andb_true_iff, ge_true, le_true.
  reflexivity.
Qed.

Lemma filter_all {A : Type} (f : A -> bool) (l : list A) :
  Forall (fun x => f x = true) l -> List.filter f l = l.
Proof.
  induction 1 as [| x l Hx _ IH]; simpl.
  - reflexivity.
  - rewrite Hx, IH. reflexivity.
Qed.

(** X11.  After every sequence of calls on a new detector the onset
    history holds at most 16 timestamps, consecutive timestamps are more
    than 300 ms apart (so the history increases strictly), and the stored
    last onset time is the last entry of the history, or 0 when it is
    empty.  The lower bound of the validity test of [updateBpm] therefore
    never excludes an interval of the history: an interval is valid exactly
    when it is at most 1000 ms. *)
Theorem onset_history_spaced (calls : list DetectorCall) :
  let d := detector_run calls new_BpmDetector in
  (length (onsetTimes d) <= 16)%nat
  /\ Forall (fun interval => 300 < interval)
            (inter_onset_intervals (onsetTimes d))
  /\ lastOnsetTime d = default 0 (last (onsetTimes d))
  /\ (forall interval : Q,
        interval ∈ inter_onset_intervals (onsetTimes d) ->
        (valid_interval interval = true <-> interval <= 1000)).
Proof.
  intros d.
  destruct (detector_run_history calls _ new_BpmDetector_inv
              new_BpmDetector_history) as [Hinv Hhist].
  fold d in Hinv, Hhist.
  split; [apply (inv_history d Hinv) |].
  split; [apply (inv_spaced d Hhist) |].
  split; [apply (inv_last_onset d Hinv) |].
  intros interval Hin. rewrite valid_interval_true.
  pose proof (inv_spaced d Hhist) as Hall.
  rewrite Forall_forall in Hall. specialize (Hall interval Hin).
  unfold MIN_ONSET_INTERVAL_MS, MAX_ONSET_INTERVAL_MS in *.
  split; [tauto | intros H; split; lra].
Qed.

(** X12.  At every moment of a run, not only right after an onset, the BPM
    of the detector is 60000 divided by the mean of the valid intervals of
    its current history, as soon as the history holds a valid interval. *)
Theorem bpm_follows_history (calls : list DetectorCall) :
  let d := detector_run calls new_BpmDetector in
  valid_intervals (onsetTimes d) <> [] ->
  getBpm d == 60000 / mean (valid_intervals (onsetTimes d)).
Proof.
  intros d.
  destruct (detector_run_history calls _ new_BpmDetector_inv
              new_BpmDetector_history) as [_ Hhist].
  apply (inv_tempo _ Hhist).
Qed.

Lemma bpm_follows_history_witness :
  let d := detector_run
             [ProcessEnergy 1 1000; ProcessEnergy 0 1100;
              ProcessEnergy 1 1500; ProcessEnergy 0.9 1600;
              ProcessEnergy 0.2 1700]
             new_BpmDetector in
  valid_intervals (onsetTimes d) = [1500 - 1000]
  /\ getBpm d == 60000 / mean [1500 - 1000].
Proof.
  intros d. split; [reflexivity |].
  apply (bpm_follows_history
           [ProcessEnergy 1 1000; ProcessEnergy 0 1100;
            ProcessEnergy 1 1500; ProcessEnergy 0.9 1600;
            ProcessEnergy 0.2 1700]).
  discriminate.
Defined.

(** X13.  The detector never reports 200 BPM or more: after every sequence
    of calls on a new detector the BPM is below 200, because onsets are
    more than 300 ms apart.  The upper bound of [constrainBpm] is never
    what decides the BPM. *)
Theorem getBpm_below_max (calls : list DetectorCall) :
  getBpm (detector_run calls new_BpmDetector) < 200.
Proof.
  destruct (detector_run_history calls _ new_BpmDetector_inv
              new_BpmDetector_history) as [_ Hhist].
  apply (inv_below_max _ Hhist).
Qed.

(** X14.  A steady tempo is measured exactly: when all the intervals of the
    history of a detector are equal to [period], at most 1000 ms, the BPM
    is [60000 / period]. *)
Theorem steady_tempo (calls : list DetectorCall) (period : Q) :
  let d := detector_run calls new_BpmDetector in
  inter_onset_intervals (onsetTimes d) <> [] ->
  Forall (fun interval => interval == period)
         (inter_onset_intervals (onsetTimes d)) ->
  period <= 1000 ->
  getBpm d == 60000 / period.
Proof.
  intros d Hne Hall Hmax.
  destruct (detector_run_history calls _ new_BpmDetector_inv
              new_BpmDetector_history) as [_ Hhist].
  fold d in Hhist.
  assert (Hvalid : valid_intervals (onsetTimes d)
                   = inter_onset_intervals (onsetTimes d)).
  { unfold valid_intervals. apply filter_all.
    pose proof (inv_spaced d Hhist) as Hspaced.
    rewrite Forall_forall in *. intros x Hx.
    specialize (Hall x Hx). specialize (Hspaced x Hx). simpl in Hall.
    apply valid_interval_true.
    unfold MIN_ONSET_INTERVAL_MS, MAX_ONSET_INTERVAL_MS in *. split; lra. }
  rewrite (inv_tempo d Hhist) by (rewrite Hvalid; exact Hne).
  rewrite Hvalid. apply Qdiv_comp; [reflexivity |].
  apply mean_flat; assumption.
Qed.

Lemma steady_tempo_witness :
  let d := detector_run
             [ProcessEnergy 1 1000; ProcessEnergy 0 1100;
              ProcessEnergy 1 1400; ProcessEnergy 0 1500;
              ProcessEnergy 1 1800; ProcessEnergy 0 1900;
              ProcessEnergy 1 2200]
             new_BpmDetector in
  onsetTimes d = [1000; 1400; 1800; 2200]
  /\ getBpm d == 60000 / 400.
Proof.
  intros d.
  assert (Hd : onsetTimes d = [1000; 1400; 1800; 2200])
    by (vm_compute; reflexivity).
  split; [exact Hd |].
  apply (steady_tempo
           [ProcessEnergy 1 1000; ProcessEnergy 0 1100;
            ProcessEnergy 1 1400; ProcessEnergy 0 1500;
            ProcessEnergy 1 1800; ProcessEnergy 0 1900;
            ProcessEnergy 1 2200] 400).
  - fold d. rewrite Hd. discriminate.
  - fold d. rewrite Hd. repeat constructor.
  - discriminate.
Defined.

(** ** Input without onsets, and pauses *)

Lemma no_rise_run (calls : list DetectorCall) :
  forall d : BpmDetector,
    onsetTimes d = [] -> currentBpm d = 120 ->
    no_rise (lastEnergy d) calls ->
    Forall (fun flag => flag = false) (detector_beats calls d)
    /\ onsetTimes (detector_run calls d) = []
    /\ currentBpm (detector_run calls d) = 120.
Proof.
  induction calls as [| c calls IH]; intros d Hh Hb Hq.
  - repeat split; [constructor | exact Hh | exact Hb].
  - destruct c as [energy timestamp |]; cbn [no_rise] in Hq.
    + destruct Hq as [Hle Hq].
      assert (Hflag : (processEnergy d energy timestamp).1 = false).
      { destruct ((processEnergy d energy timestamp).1) eqn:E;
          [| reflexivity].
        apply processEnergy_flag in E. destruct E as [E _]. lra. }
      pose proof (processEnergy_quiet d energy timestamp Hflag) as Hd'.
      cbn [detector_beats detector_run foldl detector_step].
      destruct (IH (processEnergy d energy timestamp).2) as (H1 & H2 & H3);
        try (rewrite Hd'; simpl; assumption).
      split; [constructor; [exact Hflag | exact H1] |].
      split; [exact H2 | exact H3].
    + cbn [detector_beats detector_run foldl detector_step].
      apply IH; [reflexivity | reflexivity | exact Hq].
Qed.

(** X15.  Input that never rises by more than the threshold yields no beat
    and a stable default: when no energy of a sequence of calls on a new
    detector exceeds the one before it by more than 0.15 (the first one 0,
    as does a reset), every [processEnergy] of the sequence returns false,
    the history stays empty and the BPM stays 120. *)
Theorem quiet_input_keeps_default (calls : list DetectorCall) :
  no_rise 0 calls ->
  Forall (fun flag => flag = false) (detector_beats calls new_BpmDetector)
  /\ onsetTimes (detector_run calls new_BpmDetector) = []
  /\ getBpm (detector_run calls new_BpmDetector) = 120.
Proof.
  intros Hq. apply no_rise_run; [reflexivity | reflexivity | exact Hq].
Qed.

Lemma quiet_input_keeps_default_witness :
  let calls := [ProcessEnergy 0.1 400; ProcessEnergy 0.25 800;
                ProcessEnergy 0.25 1200; Reset; ProcessEnergy 0.15 1600;
                ProcessEnergy 0 2000] in
  Forall (fun flag => flag = false) (detector_beats calls new_BpmDetector)
  /\ onsetTimes (detector_run calls new_BpmDetector) = []
  /\ getBpm (detector_run calls new_BpmDetector) = 120.
Proof.
  intros calls. apply quiet_input_keeps_default.
  simpl. repeat split; discriminate.
Defined.

(** X16.  An onset after a pause does not disturb the tempo: when an onset
    comes more than 1000 ms after the last one and the history has room
    for it, the BPM stays what it was. *)
Theorem onset_after_pause_keeps_bpm
    (calls : list DetectorCall) (energy timestamp : Q) :
  let d := detector_run calls new_BpmDetector in
  (processEnergy d energy timestamp).1 = true ->
  1000 < timestamp - lastOnsetTime d ->
  (length (onsetTimes d) < 16)%nat ->
  onsetTimes (processEnergy d energy timestamp).2
  = onsetTimes d ++ [timestamp]
  /\ getBpm (processEnergy d energy timestamp).2 == getBpm d.
Proof.
  intros d Hflag Hpause Hroom.
  destruct (detector_run_history calls _ new_BpmDetector_inv
              new_BpmDetector_history) as [Hinv Hhist].
  fold d in Hinv, Hhist.
  destruct (processEnergy_onset d energy timestamp Hflag)
    as (E1 & _ & _ & Hnone & Hsome).
  assert (Hkept : append_onset ONSET_HISTORY_SIZE (onsetTimes d) timestamp
                  = onsetTimes d ++ [timestamp]).
  { unfold append_onset.
    destruct (Nat.ltb_spec ONSET_HISTORY_SIZE
                (length (onsetTimes d ++ [timestamp]))) as [Hgt | _];
      [| reflexivity].
    rewrite length_app in Hgt. simpl in Hgt.
    unfold ONSET_HISTORY_SIZE in Hgt. lia. }
  rewrite Hkept in E1.
  assert (Hvalid : valid_intervals
                     (onsetTimes (processEnergy d energy timestamp).2)
                   = valid_intervals (onsetTimes d)).
  { rewrite E1. unfold valid_intervals.
    rewrite inter_onset_intervals_snoc, List.filter_app.
    rewrite (inv_last_onset d Hinv) in Hpause. unfold last_onset_time in Hpause.
    destruct (last (onsetTimes d)) as [t0 |]; simpl in Hpause |- *.
    - destruct (valid_interval (timestamp - t0)) eqn:Hv.
      + apply valid_interval_true in Hv.
        unfold MAX_ONSET_INTERVAL_MS in Hv. lra.
      + apply app_nil_r.
    - apply app_nil_r. }
  split; [exact E1 |].
  destruct (decide (valid_intervals (onsetTimes d) = [])) as [Hnil | Hne].
  - unfold getBpm. rewrite Hnone by (rewrite Hvalid; exact Hnil).
    reflexivity.
  - unfold getBpm. rewrite Hsome by (rewrite Hvalid; exact Hne).
    rewrite Hvalid. symmetry. apply (inv_tempo d Hhist Hne).
Qed.

Lemma onset_after_pause_keeps_bpm_witness :
  let d := detector_run
             [ProcessEnergy 1 1000; ProcessEnergy 0 1100;
              ProcessEnergy 1 1400; ProcessEnergy 0 1500]
             new_BpmDetector in
  onsetTimes (processEnergy d 1 5000).2 = [1000; 1400] ++ [5000]
  /\ getBpm (processEnergy d 1 5000).2 == getBpm d.
Proof.
  intros d.
  assert (Hd : onsetTimes d = [1000; 1400]) by (vm_compute; reflexivity).
  rewrite <- Hd.
  apply (onset_after_pause_keeps_bpm
           [ProcessEnergy 1 1000; ProcessEnergy 0 1100;
            ProcessEnergy 1 1400; ProcessEnergy 0 1500] 1 5000).
  - reflexivity.
  - reflexivity.
  - fold d. rewrite Hd. simpl. lia.
Defined.

(** ** The life cycle of the analyzer *)

Lemma getAnalysis_state_silent (now : Q) (freq : list Q) (a : AudioAnalyzer) :
  negb (isConnected a) || is_null (analyserNode a) = true ->
  getAnalysis now freq a = (createSilentAnalysis now, a).
Proof. intros G. unfold getAnalysis. rewrite G. reflexivity. Qed.

Lemma analyzer_step_context
    (a : AudioAnalyzer) (c : AnalyzerCall) (ctx : AudioContext) :
  audioContext a = Some ctx -> c <> Dispose ->
  audioContext (analyzer_step a c) = Some ctx.
Proof.
  intros Hctx Hc. destruct c as [rate | | now freq |]; cbn [analyzer_step].
  - unfold connect. cbn [audioContext]. rewrite Hctx. reflexivity.
  - exact Hctx.
  - destruct (negb (isConnected a) || is_null (analyserNode a)) eqn:G.
    + rewrite getAnalysis_state_silent by exact G. exact Hctx.
    + rewrite (getAnalysis_connected now freq a G). exact Hctx.
  - contradiction.
Qed.

Lemma analyzer_run_context (calls : list AnalyzerCall) :
  forall (a : AudioAnalyzer) (ctx : AudioContext),
    audioContext a = Some ctx ->
    Forall (fun c => c <> Dispose) calls ->
    audioContext (analyzer_run calls a) = Some ctx.
Proof.
  induction calls as [| c calls IH]; intros a ctx Hctx Hall.
  - exact Hctx.
  - apply Forall_cons in Hall. destruct Hall as [Hc Hall].
    apply (IH (analyzer_step a c)); [| exact Hall].
    apply analyzer_step_context; assumption.
Qed.

(** X17.  The audio context is created once: the sample rate of the first
    [connect] of a new analyzer is the one every later analysis uses,
    through any sequence of [connect], [disconnect] and [getAnalysis]
    calls, whatever rates the later [connect]s would have got.  Only
    [dispose] drops the context, and the next [connect] then takes its
    own. *)
Theorem sample_rate_fixed_by_first_connect
    (rate rate' : Q) (calls : list AnalyzerCall) :
  Forall (fun c => c <> Dispose) calls ->
  let a := analyzer_run calls (connect rate new_AudioAnalyzer) in
  audioContext a = Some {| sampleRate := rate |}
  /\ analysis_rate a = rate
  /\ analysis_rate (connect rate' a) = rate
  /\ audioContext (dispose a) = None
  /\ analysis_rate (connect rate' (dispose a)) = rate'.
Proof.
  intros Hall a.
  assert (Hctx : audioContext a = Some {| sampleRate := rate |}).
  { apply analyzer_run_context; [reflexivity | exact Hall]. }
  split; [exact Hctx |].
  unfold analysis_rate, connect, dispose, disconnect. cbn [audioContext].
  rewrite Hctx. repeat split.
Qed.

Lemma sample_rate_fixed_by_first_connect_witness :
  let a := analyzer_run
             [GetAnalysis 10 [-50; -40]; Disconnect; Connect 48000;
              GetAnalysis 30 [-20]]
             (connect 44100 new_AudioAnalyzer) in
  audioContext a = Some {| sampleRate := 44100 |}
  /\ analysis_rate a = 44100
  /\ analysis_rate (connect 96000 a) = 44100
  /\ audioContext (dispose a) = None
  /\ analysis_rate (connect 96000 (dispose a)) = 96000.
Proof.
  apply (sample_rate_fixed_by_first_connect 44100 96000).
  repeat constructor; discriminate.
Defined.

Lemma analyzer_run_silent (calls : list AnalyzerCall) :
  forall a : AudioAnalyzer,
    isConnected a = false ->
    Forall (fun c => exists now freq, c = GetAnalysis now freq) calls ->
    analyzer_run calls a = a.
Proof.
  induction calls as [| c calls IH]; intros a Ha Hall.
  - reflexivity.
  - apply Forall_cons in Hall. destruct Hall as [(now & freq & ->) Hall].
    cbn [analyzer_run foldl analyzer_step].
    rewrite getAnalysis_silent by (left; exact Ha).
    apply IH; assumption.
Qed.

(** X18.  A disconnected analyzer is inert: after [disconnect] every
    [getAnalysis] returns the silent analysis and any number of them leaves
    the analyzer as it is.  Disconnecting or disposing twice is the same
    as once, and [dispose] includes [disconnect]. *)
Theorem disconnected_analyzer_is_inert
    (a : AudioAnalyzer) (calls : list AnalyzerCall) (now : Q)
    (freq : list Q) :
  Forall (fun c => exists now freq, c = GetAnalysis now freq) calls ->
  analyzer_run calls (disconnect a) = disconnect a
  /\ (getAnalysis now freq (analyzer_run calls (disconnect a))).1
     = createSilentAnalysis now
  /\ disconnect (disconnect a) = disconnect a
  /\ dispose (dispose a) = dispose a
  /\ dispose (disconnect a) = dispose a
  /\ disconnect (dispose a) = dispose a.
Proof.
  intros Hall.
  assert (E : analyzer_run calls (disconnect a) = disconnect a).
  { apply analyzer_run_silent; [reflexivity | exact Hall]. }
  split; [exact E |]. split.
  - rewrite E, getAnalysis_silent by (left; reflexivity). reflexivity.
  - repeat split.
Qed.

Lemma disconnected_analyzer_is_inert_witness :
  let a := connect 44100 new_AudioAnalyzer in
  analyzer_run [GetAnalysis 10 [-50; -40]; GetAnalysis 30 [-20]]
    (disconnect a) = disconnect a
  /\ (getAnalysis 50 [-10]
        (analyzer_run [GetAnalysis 10 [-50; -40]; GetAnalysis 30 [-20]]
           (disconnect a))).1
     = createSilentAnalysis 50.
Proof.
  intros a.
  destruct (disconnected_analyzer_is_inert a
              [GetAnalysis 10 [-50; -40]; GetAnalysis 30 [-20]] 50 [-10])
    as (H1 & H2 & _).
  - repeat constructor; eexists; eexists; reflexivity.
  - split; [exact H1 | exact H2].
Defined.

(** ** Errors *)

Lemma code_value_inj (c1 c2 : SonicOSErrorCode) :
  code_value c1 = code_value c2 -> c1 = c2.
Proof. destruct c1, c2; intros H; try reflexivity; discriminate H. Qed.

(** X19.  [createSonicOSError] keeps the code and the message apart: two
    errors are equal only when made from the same code and the same
    message.  The error is not recoverable exactly for a failed WebGL
    initialization and a shader compile error; every error of another
    category than Visual is recoverable. *)
Theorem createSonicOSError_injective
    (c1 c2 : SonicOSErrorCode) (m1 m2 : string) :
  (createSonicOSError c1 m1 = createSonicOSError c2 m2 ->
   c1 = c2 /\ m1 = m2)
  /\ (recoverable (createSonicOSError c1 m1) = false
      <-> c1 = WEBGL_INIT_FAILED \/ c1 = SHADER_COMPILE_ERROR)
  /\ (ErrorMetadata.category (ERROR_METADATA c1) <> "Visual" ->
      recoverable (createSonicOSError c1 m1) = true).
Proof.
  split; [| split].
  - intros H. injection H as Hc Hm _.
    split; [apply code_value_inj, Hc | exact Hm].
  - destruct c1; simpl; split; intros H;
      try discriminate H; try (destruct H as [H | H]; discriminate H);
      auto.
  - destruct c1; simpl; intros H; try reflexivity; contradiction.
Qed.

Lemma createSonicOSError_injective_witness :
  recoverable (createSonicOSError AUDIO_STREAM_LOST "stream ended") = true
  /\ recoverable (createSonicOSError SHADER_COMPILE_ERROR "syntax") = false.
Proof.
  destruct (createSonicOSError_injective AUDIO_STREAM_LOST AUDIO_STREAM_LOST
              "stream ended" "stream ended") as (_ & _ & H1).
  destruct (createSonicOSError_injective SHADER_COMPILE_ERROR
              SHADER_COMPILE_ERROR "syntax" "syntax") as (_ & H2 & _).
  split; [apply H1; discriminate | apply H2; right; reflexivity].
Defined.

(** ** Debouncing of beats *)

Lemma no_beat_within_interval (t : Q) (calls : list DetectorCall) :
  forall d : BpmDetector,
    lastOnsetTime d = t ->
    Forall (fun c => match c with
                     | ProcessEnergy _ t' => t' - t <= MIN_ONSET_INTERVAL_MS
                     | Reset => False
                     end) calls ->
    Forall (fun flag => flag = false) (detector_beats calls d)
    /\ lastOnsetTime (detector_run calls d) = t
    /\ onsetTimes (detector_run calls d) = onsetTimes d
    /\ currentBpm (detector_run calls d) = currentBpm d.
Proof.
  induction calls as [| c calls IH]; intros d Ht Hall.
  - split; [constructor |]. split; [exact Ht |]. split; reflexivity.
  - apply Forall_cons in Hall. destruct Hall as [Hc Hall].
    destruct c as [energy t' |]; [| contradiction].
    assert (Hflag : (processEnergy d energy t').1 = false).
    { destruct ((processEnergy d energy t').1) eqn:E; [| reflexivity].
      apply processEnergy_flag in E. destruct E as [_ E].
      rewrite Ht in E. lra. }
    pose proof (processEnergy_quiet d energy t' Hflag) as Hd'.
    cbn [detector_beats detector_run foldl detector_step].
    destruct (IH (processEnergy d energy t').2) as (H1 & H2 & H3 & H4);
      [rewrite Hd'; exact Ht | exact Hall |].
    split; [constructor; [exact Hflag | exact H1] |].
    split; [exact H2 |].
    assert (E3 : onsetTimes (processEnergy d energy t').2 = onsetTimes d)
      by (rewrite Hd'; reflexivity).
    assert (E4 : currentBpm (processEnergy d energy t').2 = currentBpm d)
      by (rewrite Hd'; reflexivity).
    split; [exact (eq_trans H3 E3) | exact (eq_trans H4 E4)].
Qed.

(** X20.  Beats are debounced: after a call that declared an onset at
    [timestamp], every [processEnergy] whose timestamp is no more than
    300 ms later returns false, however much the energy rises, and leaves
    the history and the BPM as the onset left them. *)
Theorem no_second_beat_within_interval
    (d : BpmDetector) (energy timestamp : Q) (calls : list DetectorCall) :
  (processEnergy d energy timestamp).1 = true ->
  Forall (fun c => match c with
                   | ProcessEnergy _ t' => t' - timestamp <= 300
                   | Reset => False
                   end) calls ->
  let d' := (processEnergy d energy timestamp).2 in
  Forall (fun flag => flag = false) (detector_beats calls d')
  /\ onsetTimes (detector_run calls d') = onsetTimes d'
  /\ getBpm (detector_run calls d') = getBpm d'.
Proof.
  intros Hflag Hall d'.
  destruct (processEnergy_onset d energy timestamp Hflag)
    as (_ & _ & Hlast & _).
  destruct (no_beat_within_interval timestamp calls d' Hlast Hall)
    as (H1 & _ & H3 & H4).
  split; [exact H1 |]. split; [exact H3 | exact H4].
Qed.

Lemma no_second_beat_within_interval_witness :
  let d' := (processEnergy new_BpmDetector 1 1000).2 in
  let calls := [ProcessEnergy 0 1100; ProcessEnergy 1 1200;
                ProcessEnergy 0 1250; ProcessEnergy 1 1300] in
  Forall (fun flag => flag = false) (detector_beats calls d')
  /\ onsetTimes (detector_run calls d') = onsetTimes d'
  /\ getBpm (detector_run calls d') = getBpm d'.
Proof.
  intros d' calls.
  apply (no_second_beat_within_interval new_BpmDetector 1 1000 calls).
  - reflexivity.
  - repeat constructor; discriminate.
Defined.

(** ** Silence on a connected analyzer *)

Lemma new_AudioAnalyzer_live : live_inv new_AudioAnalyzer.
Proof. split; simpl; [apply Qle_refl | discriminate]. Qed.

Lemma analyzer_step_live (a : AudioAnalyzer) (c : AnalyzerCall) :
  analyzer_inv a -> live_inv a -> live_inv (analyzer_step a c).
Proof.
  intros [[H1 H2] _] [He Hn].
  destruct c as [rate | | now freq |]; cbn [analyzer_step].
  - split; [exact He | intros _; eexists; reflexivity].
  - split; simpl; [apply Qle_refl | discriminate].
  - destruct (negb (isConnected a) || is_null (analyserNode a)) eqn:G.
    + rewrite getAnalysis_state_silent by exact G. split; assumption.
    + rewrite (getAnalysis_connected now freq a G).
      cbn [snd]. split; cbn [bpmDetector isConnected analyserNode];
        [| exact Hn].
      rewrite processEnergy_lastEnergy.
      apply energy_bands_unit, normalized_spectrum_unit.
      rewrite H1, H2. reflexivity.
  - split; simpl; [apply Qle_refl | discriminate].
Qed.

Lemma analyzer_run_live (calls : list AnalyzerCall) :
  forall a : AudioAnalyzer,
    analyzer_inv a -> live_inv a ->
    analyzer_inv (analyzer_run calls a) /\ live_inv (analyzer_run calls a).
Proof.
  induction calls as [| c calls IH]; intros a Ha Hl.
  - split; assumption.
  - apply (IH (analyzer_step a c)).
    + apply analyzer_step_inv, Ha.
    + apply analyzer_step_live; assumption.
Qed.

(** X21.  Silence on a connected analyzer: when an analyzer reached from a
    new one is connected and the frame holds at least 1024 values, all at
    or below -100 dB, the analysis has a spectrum of zeros and zero energy
    in every band, declares no beat, and reports the BPM the detector
    had. *)
Theorem silent_frame_on_connected_analyzer
    (calls : list AnalyzerCall) (now : Q) (freq : list Q) :
  let a := analyzer_run calls new_AudioAnalyzer in
  isConnected a = true ->
  (1024 <= length freq)%nat ->
  Forall (fun db => db <= -100) freq ->
  let analysis := (getAnalysis now freq a).1 in
  length (fft analysis) = 1024%nat
  /\ Forall (fun bin => bin == 0) (fft analysis)
  /\ low (energy analysis) == 0 /\ mid (energy analysis) == 0
  /\ high (energy analysis) == 0 /\ total (energy analysis) == 0
  /\ beat analysis = false
  /\ bpm analysis = getBpm (bpmDetector a).
Proof.
  intros a Hc Hlen Hall analysis.
  destruct (analyzer_run_live calls _ new_AudioAnalyzer_inv
              new_AudioAnalyzer_live) as [[[H1 H2] _] [He Hn]].
  fold a in H1, H2, He, Hn.
  assert (G : negb (isConnected a) || is_null (analyserNode a) = false).
  { destruct (Hn Hc) as [node Hnode]. rewrite Hc, Hnode. reflexivity. }
  unfold analysis. rewrite (getAnalysis_connected now freq a G).
  cbn [fst fft energy beat bpm].
  set (spectrum := normalize_loop 0 (getFloatFrequencyData freq (fftData a))
                     (normalizedFft a)).
  assert (Hzero : Forall (fun bin => bin == 0) spectrum).
  { apply Forall_lookup. intros j v Hj.
    assert (Hjlen : (j < length (normalizedFft a))%nat).
    { rewrite <- (normalize_loop_length
                    (getFloatFrequencyData freq (fftData a)) 0).
      apply lookup_lt_is_Some. eauto. }
    destruct (lookup_lt_is_Some_2 freq j) as [db Hdb];
      [rewrite H2 in Hjlen; unfold BIN_COUNT in Hjlen; lia |].
    assert (Hin : getFloatFrequencyData freq (fftData a) !! j = Some db).
    { apply getFloatFrequencyData_lookup; [| exact Hdb].
      rewrite H1, <- H2. exact Hjlen. }
    pose proof (normalize_loop_at _ 0 j (normalizedFft a) db Hin Hjlen) as E.
    simpl in E. fold spectrum in E. rewrite E in Hj. injection Hj as <-.
    rewrite (fround_zero (normalize_db db)); [reflexivity |].
    apply normalize_db_floor.
    rewrite Forall_lookup in Hall. apply (Hall j db Hdb). }
  destruct (energy_bands_zero spectrum FFT_SIZE (analysis_rate a) Hzero)
    as (E1 & E2 & E3 & E4).
  split; [unfold spectrum; rewrite normalize_loop_length; exact H2 |].
  split; [exact Hzero |].
  split; [exact E1 |]. split; [exact E2 |]. split; [exact E3 |].
  split; [exact E4 |].
  set (e := calculateEnergyBands spectrum FFT_SIZE (analysis_rate a)) in *.
  assert (Hflag : (processEnergy (bpmDetector a) (total e) now).1 = false).
  { destruct ((processEnergy (bpmDetector a) (total e) now).1) eqn:E;
      [| reflexivity].
    apply processEnergy_flag in E. destruct E as [E _].
    unfold ONSET_THRESHOLD in E. lra. }
  split; [exact Hflag |].
  rewrite processEnergy_quiet by exact Hflag. reflexivity.
Qed.

Lemma silent_frame_on_connected_analyzer_witness :
  let a := analyzer_run [Connect 44100] new_AudioAnalyzer in
  let analysis := (getAnalysis 1000 (replicate 1024%nat (-120)%Q) a).1 in
  Forall (fun bin => bin == 0) (fft analysis)
  /\ total (energy analysis) == 0
  /\ beat analysis = false
  /\ bpm analysis = 120.
Proof.
  intros a.
  assert (Hlen : (1024 <= length (replicate 1024%nat (-120)%Q))%nat).
  { rewrite length_replicate. apply Nat.le_refl. }
  assert (Hall : Forall (fun db => db <= -100) (replicate 1024%nat (-120)%Q)).
  { apply Forall_replicate. discriminate. }
  destruct (silent_frame_on_connected_analyzer [Connect 44100] 1000
              (replicate 1024%nat (-120)%Q) eq_refl Hlen Hall)
    as (_ & H1 & _ & _ & _ & H2 & H3 & H4).
  split; [exact H1 |]. split; [exact H2 |]. split; [exact H3 | exact H4].
Defined.

(** ** The BPM range *)

(** X7.  [constrainBpm] leaves a BPM between 60 and 200 as it is, takes
    everything below to 60 and everything above to 200; constraining twice
    is the same as once, and a larger input never gives a smaller result. *)
Theorem constrainBpm_clamps (bpm bpm' : Q) :
  (60 <= bpm <= 200 -> constrainBpm bpm == bpm)
  /\ (bpm <= 60 -> constrainBpm bpm == 60)
  /\ (200 <= bpm -> constrainBpm bpm == 200)
  /\ constrainBpm (constrainBpm bpm) == constrainBpm bpm
  /\ (bpm <= bpm' -> constrainBpm bpm <= constrainBpm bpm').
Proof.
  pose proof (constrainBpm_range bpm) as Hr.
  rewrite (constrainBpm_clamp (constrainBpm bpm)).
  rewrite (clamp_id MIN_BPM MAX_BPM (constrainBpm bpm) Hr).
  rewrite !constrainBpm_clamp. unfold clamp, MIN_BPM, MAX_BPM.
  repeat split; try intros H;
    repeat match goal with
           | |- context [Qlt_le_dec ?a ?b] => destruct (Qlt_le_dec a b)
           end; lra.
Qed.

Lemma constrainBpm_clamps_witness :
  constrainBpm 128 == 128 /\ constrainBpm 45 == 60
  /\ constrainBpm 240 == 200 /\ constrainBpm 90 <= constrainBpm 150.
Proof.
  destruct (constrainBpm_clamps 128 0) as (H1 & _).
  destruct (constrainBpm_clamps 45 0) as (_ & H2 & _).
  destruct (constrainBpm_clamps 240 0) as (_ & _ & H3 & _).
  destruct (constrainBpm_clamps 90 150) as (_ & _ & _ & _ & H4).
  split; [apply H1; split; discriminate |].
  split; [apply H2; discriminate |].
  split; [apply H3; discriminate | apply H4; discriminate].
Defined.
